(** * Proximity matcher (clean_router.py), response cache
      (cache_solution.py) and log analysis (analyze_logs.py): a shallow
      embedding and its properties.

    Numbers.  Driver and package coordinates are Python [int]s (the
    dataclass fields are annotated [int]) and are modelled as [Z].  A finite
    [float] such as [max_distance] or a clock reading is the rational [Q] it
    denotes, so that [int(max_distance)] (truncation toward zero) and the
    mixed int/float comparisons, which Python decides exactly, keep their
    meaning.

    The development has two layers.  The first keeps square roots exact
    ([math.sqrt(q)] is the surd [√q], represented by its radicand) and sums
    exact; it carries the properties that do not depend on how floats
    round: the grid, the cell size, the scan order, the exceptions of
    integer division.  The second, module [Fl], takes the float operations
    ([**], [math.sqrt], [+] on the clock, the arithmetic of the
    correlation) as parameters, and module [B64] instantiates them with
    IEEE 754 binary64 arithmetic to run the functions on concrete inputs.

    Errors.  Python exceptions are the [Raise] branch of [result].  The
    calls to [print] do not influence the returned value and are left
    out. *)

From Stdlib Require Import ZArith QArith Qround Qpower Reals Qreals Lia Lra.
From Stdlib Require Import List Permutation.
From Stdlib Require Lqa.
From Stdlib Require Import Ascii.
From Stdlib Require Import SpecFloat.
From stdpp Require Import gmap strings list fin_maps.

Local Open Scope Z_scope.

(** ** Exceptions and results *)

Inductive exn : Set :=
| ZeroDivisionError
| ValueError
| StatisticsError
| OverflowError.

Inductive result (A : Type) : Type :=
| Ok (a : A)
| Raise (e : exn).
Arguments Ok {A} a.
Arguments Raise {A} e.

#[global] Instance result_bind : MBind result :=
  fun A B (k : A -> result B) (r : result A) =>
    match r with
    | Ok a => k a
    | Raise e => Raise e
    end.

(** A [for] loop whose body may raise: the first exception ends the loop. *)
Fixpoint for_each {A S : Type} (body : S -> A -> result S) (l : list A) (s : S)
  : result S :=
  match l with
  | [] => Ok s
  | a :: l' => s' ← body s a; for_each body l' s'
  end.

(** ** Python arithmetic *)

(** [int(f)] on a float: truncation toward zero. *)
Definition py_int (f : Q) : Z := Z.quot (Qnum f) (Z.pos (Qden f)).

(** [a // b] on ints: floor division, [ZeroDivisionError] when [b] is 0. *)
Definition floordiv (a b : Z) : result Z :=
  if b =? 0 then Raise ZeroDivisionError else Ok (a / b).

(** [range(lo, hi)]. *)
Definition range (lo hi : Z) : list Z :=
  map (fun n => lo + Z.of_nat n) (seq 0 (Z.to_nat (hi - lo))).

Definition Qltb (a b : Q) : bool :=
  match Qcompare a b with
  | Lt => true
  | _ => false
  end.

(** The exact square root of a rational, kept as its radicand. *)
Record Surd : Set := mkSurd { radicand : Q }.


(** [math.sqrt(q)]: [ValueError] on a negative argument. *)
Definition math_sqrt (q : Q) : result Surd :=
  if Qltb q 0 then Raise ValueError else Ok (mkSurd q).

(** [s < f] for a square root [s] and a float [f]: since [s] is not
    negative, [√r < f] holds exactly when [0 < f] and [r < f * f]. *)
Definition surd_ltb (s : Surd) (f : Q) : bool :=
  Qltb 0 f && Qltb (radicand s) (f * f).

(** ** Entity model (clean_router.py, lines 19-39) *)

Record Driver : Set := mkDriver { d_id : Z; d_x : Z; d_y : Z }.

Record Package : Set :=
  mkPackage { p_id : Z; p_x : Z; p_y : Z; p_priority : string }.

Record MatchResult : Set :=
  mkMatchResult { driver_id : Z; package_id : Z; distance : Surd }.

(** ** get_grid_key (lines 56-58)

    The coordinates and the cell size are ints, so [x // cell_size] is an
    int already and the enclosing [int(...)] changes nothing. *)

Definition get_grid_key (x y cell_size : Z) : result (Z * Z) :=
  cx ← floordiv x cell_size;
  cy ← floordiv y cell_size;
  Ok (cx, cy).

(** ** find_matches_optimized (lines 60-100) *)

(** [grid[key]] on a [defaultdict(list)]: a missing key reads as []. *)
Definition grid_getitem (grid : gmap (Z * Z) (list Package)) (key : Z * Z)
  : list Package :=
  default [] (grid !! key).

(** [grid[key].append(pkg)]: a missing key gets the one-element list. *)
Definition grid_append (grid : gmap (Z * Z) (list Package)) (key : Z * Z)
  (pkg : Package) : gmap (Z * Z) (list Package) :=
  <[key := grid_getitem grid key ++ [pkg]]> grid.

(** Step 1 (lines 70-75): populate the grid with the packages. *)
Definition build_grid (packages : list Package) (cell_size : Z)
  : result (gmap (Z * Z) (list Package)) :=
  for_each
    (fun grid pkg =>
       key ← get_grid_key (p_x pkg) (p_y pkg) cell_size;
       Ok (grid_append grid key pkg))
    packages ∅.

(** [(driver.x - pkg.x)**2 + (driver.y - pkg.y)**2]. *)
Definition dist_sq (driver : Driver) (pkg : Package) : Z :=
  (d_x driver - p_x pkg) ^ 2 + (d_y driver - p_y pkg) ^ 2.

(** The bounding-box pre-check of line 93. *)
Definition in_bounding_box (driver : Driver) (pkg : Package) (max_distance : Q)
  : bool :=
  Qle_bool (inject_Z (Z.abs (d_x driver - p_x pkg))) max_distance
  && Qle_bool (inject_Z (Z.abs (d_y driver - p_y pkg))) max_distance.

(** Lines 93-96: the body of the innermost loop. *)
Definition check_package (max_distance : Q) (driver : Driver)
  (matches : list MatchResult) (pkg : Package) : result (list MatchResult) :=
  if in_bounding_box driver pkg max_distance then
    if Qltb (inject_Z (dist_sq driver pkg)) (max_distance ^ 2) then
      dist ← math_sqrt (inject_Z (dist_sq driver pkg));
      Ok (matches ++ [mkMatchResult (d_id driver) (p_id pkg) dist])
    else Ok matches
  else Ok matches.

(** Lines 86-96: the 3x3 scan around the driver's cell. *)
Definition scan_neighbors (grid : gmap (Z * Z) (list Package))
  (max_distance : Q) (driver : Driver) (d_key : Z * Z)
  (matches : list MatchResult) : result (list MatchResult) :=
  let '(dx_grid, dy_grid) := d_key in
  for_each
    (fun matches i =>
       for_each
         (fun matches j =>
            let neighbor_key := (dx_grid + i, dy_grid + j) in
            if decide (is_Some (grid !! neighbor_key)) then
              for_each (check_package max_distance driver)
                (grid_getitem grid neighbor_key) matches
            else Ok matches)
         (range (-1) 2) matches)
    (range (-1) 2) matches.

(** Step 2 (lines 80-96): query for each driver. *)
Definition query_drivers (grid : gmap (Z * Z) (list Package))
  (cell_size : Z) (max_distance : Q) (drivers : list Driver)
  : result (list MatchResult) :=
  for_each
    (fun matches driver =>
       d_key ← get_grid_key (d_x driver) (d_y driver) cell_size;
       scan_neighbors grid max_distance driver d_key matches)
    drivers [].

Definition find_matches_optimized (drivers : list Driver)
  (packages : list Package) (max_distance : Q) : result (list MatchResult) :=
  let cell_size := py_int max_distance in
  grid ← build_grid packages cell_size;
  query_drivers grid cell_size max_distance drivers.

(** ** find_matches_brute_force (lines 102-118) *)

(** Lines 112-114: the body of the inner loop. *)
Definition brute_check (max_distance : Q) (driver : Driver)
  (matches : list MatchResult) (pkg : Package) : result (list MatchResult) :=
  dist ← math_sqrt (inject_Z (dist_sq driver pkg));
  if surd_ltb dist max_distance then
    Ok (matches ++ [mkMatchResult (d_id driver) (p_id pkg) dist])
  else Ok matches.

Definition find_matches_brute_force (drivers : list Driver)
  (packages : list Package) (max_distance : Q) : result (list MatchResult) :=
  for_each
    (fun matches driver =>
       for_each (brute_check max_distance driver) packages matches)
    drivers [].

(** ** statistics.mean in exact arithmetic

    Used for the lists that [analyze] collects. *)

(** [sum(l)]: starts from 0 and adds from the left. *)
Definition py_sum (l : list Q) : Q := fold_left Qplus l 0%Q.

(** [statistics.mean(l)]: [StatisticsError] on an empty list. *)
Definition statistics_mean (l : list Q) : result Q :=
  match l with
  | [] => Raise StatisticsError
  | _ => Ok (py_sum l / inject_Z (Z.of_nat (length l)))%Q
  end.

(** ** Declarative counterparts used in the statements *)

Definition cell_key (cell_size : Z) (x y : Z) : Z * Z :=
  (x / cell_size, y / cell_size).

Definition package_key (cell_size : Z) (pkg : Package) : Z * Z :=
  cell_key cell_size (p_x pkg) (p_y pkg).

Definition driver_key (cell_size : Z) (driver : Driver) : Z * Z :=
  cell_key cell_size (d_x driver) (d_y driver).

(** The packages of one cell, in input order. *)
Definition bucket (cell_size : Z) (packages : list Package) (key : Z * Z)
  : list Package :=
  filter (fun pkg => package_key cell_size pkg = key) packages.

(** The nine cells around [(cx, cy)], in the order the two loops visit them. *)
Definition neighbor_keys (key : Z * Z) : list (Z * Z) :=
  let '(cx, cy) := key in
  [ (cx - 1, cy - 1); (cx - 1, cy); (cx - 1, cy + 1);
    (cx, cy - 1);     (cx, cy);     (cx, cy + 1);
    (cx + 1, cy - 1); (cx + 1, cy); (cx + 1, cy + 1) ].

(** The acceptance test of the grid matcher (lines 93 and 95). *)
Definition accepts (max_distance : Q) (driver : Driver) (pkg : Package) : bool :=
  in_bounding_box driver pkg max_distance
  && Qltb (inject_Z (dist_sq driver pkg)) (max_distance ^ 2).

(** The acceptance test of the brute-force matcher (lines 112-113). *)
Definition brute_accepts (max_distance : Q) (driver : Driver) (pkg : Package)
  : bool :=
  surd_ltb (mkSurd (inject_Z (dist_sq driver pkg))) max_distance.

Definition match_of (driver : Driver) (pkg : Package) : MatchResult :=
  mkMatchResult (d_id driver) (p_id pkg) (mkSurd (inject_Z (dist_sq driver pkg))).

Definition matches_among (test : Driver -> Package -> bool) (driver : Driver)
  (pkgs : list Package) : list MatchResult :=
  map (match_of driver) (filter (fun pkg => test driver pkg = true) pkgs).

(** Agent-major order; inside one agent the 3x3 order, then bucket order. *)
Definition grid_order_matches (cell_size : Z) (max_distance : Q)
  (drivers : list Driver) (packages : list Package) : list MatchResult :=
  flat_map
    (fun driver =>
       flat_map
         (fun key =>
            matches_among (accepts max_distance) driver
              (bucket cell_size packages key))
         (neighbor_keys (driver_key cell_size driver)))
    drivers.

(** Agent-major order; inside one agent the input order of the packages. *)
Definition input_order_matches (max_distance : Q)
  (drivers : list Driver) (packages : list Package) : list MatchResult :=
  flat_map
    (fun driver => matches_among (brute_accepts max_distance) driver packages)
    drivers.

(** The grid as a pure fold, for a cell size that is not 0. *)
Definition grid_of (cell_size : Z) (packages : list Package)
  : gmap (Z * Z) (list Package) :=
  fold_left (fun grid pkg => grid_append grid (package_key cell_size pkg) pkg)
    packages ∅.


(** Everything the grid holds, bucket after bucket. *)
Definition grid_contents (grid : gmap (Z * Z) (list Package)) : list Package :=
  concat (map snd (map_to_list grid)).

(** Two packages that differ at most in their priority. *)
Definition same_but_priority (p q : Package) : Prop :=
  p_id p = p_id q /\ p_x p = p_x q /\ p_y p = p_y q.

(** ** MockRedis and cache_response (cache_solution.py)

    The clock is an input: every call of [time.time()] is an argument of
    the function that makes it.  A time stamp is a rational, like the other
    floats.  The store is a dictionary from the key to the pair of the value
    and the expiry time stamp, where 0 stands for no expiry. *)

Module MockRedis.

(** [get] (lines 34-42), at clock reading [now]: the answer and the store
    after the call (an expired entry is deleted). *)
Definition get (now : Q) (name : string) (cache : gmap string (string * Q))
  : option string * gmap string (string * Q) :=
  match cache !! name with
  | None => (None, cache)
  | Some (value, expiry) =>
      if negb (Qeq_bool expiry 0) && Qltb expiry now
      then (None, delete name cache)
      else (Some value, cache)
  end.

(** [set] (lines 44-46), at clock reading [now]. *)
Definition set (now : Q) (name value : string) (ex : Z)
  (cache : gmap string (string * Q)) : gmap string (string * Q) :=
  let expiry := if 0 <? ex then (now + inject_Z ex)%Q else 0%Q in
  <[name := (value, expiry)]> cache.

End MockRedis.

(** [f"{func.__name__}:{key_part}"] (line 60). *)
Definition cache_key (func_name key_part : string) : string :=
  func_name ++ ":" ++ key_part.

(** The truth value of [cached_value] in [if cached_value:] (line 64):
    [None] and the empty string are false. *)
Definition truthy (cached_value : option string) : bool :=
  match cached_value with
  | None => false
  | Some EmptyString => false
  | Some _ => true
  end.

(** [wrapper] (lines 56-75) of [cache_response(ttl_seconds)(func)].

    [json] is library code: [dumps_args args] stands for
    [json.dumps([args, kwargs], sort_keys=True)], [dumps] for [json.dumps] on
    a result and [loads] for [json.loads].  The decorated function is a
    function of its arguments; the state carries the store of
    [redis_client] and the number of times [func] has been run.  [t_get] is
    the clock reading inside [redis_client.get], [t_set] the one inside
    [redis_client.set]. *)
Definition cache_response {Args V : Type}
  (dumps_args : Args -> string) (dumps : V -> string) (loads : string -> V)
  (ttl_seconds : Z) (func_name : string) (func : Args -> V)
  (t_get t_set : Q) (args : Args)
  (st : gmap string (string * Q) * nat)
  : V * (gmap string (string * Q) * nat) :=
  let '(cache, calls) := st in
  let key_part := dumps_args args in
  let cache_key := cache_key func_name key_part in
  let '(cached_value, cache) := MockRedis.get t_get cache_key cache in
  if truthy cached_value then
    (loads (default EmptyString cached_value), (cache, calls))
  else
    let result := func args in
    let cache := MockRedis.set t_set cache_key (dumps result) ttl_seconds cache in
    (result, (cache, S calls)).

(** The pair of ids a match reports. *)
Definition id_pair (r : MatchResult) : Z * Z := (driver_id r, package_id r).

(** ** analyze (analyze_logs.py, lines 29-69 and 134-158): the loop over
    the rows and the arguments of the correlation calls

    Reading the file and printing are left out: the input is the list of
    rows [csv.DictReader] yields, each a dictionary from the field names of
    the header to the text of the field, or to [None] where the line is too
    short.  [float(s)] and [int(s)] on a text are library code and are
    parameters: they answer [None] where Python raises [ValueError]. *)

Module Logs.

Inductive exc : Set :=
| KeyError
| ValueError
| TypeError
| AttributeError
| IndexError.

Inductive outcome (A : Type) : Type :=
| Return (a : A)
| Throw (e : exc).
Arguments Return {A} a.
Arguments Throw {A} e.

#[global] Instance outcome_bind : MBind outcome :=
  fun A B (k : A -> outcome B) (r : outcome A) =>
    match r with
    | Return a => k a
    | Throw e => Throw e
    end.

(** [row[key]]. *)
Definition getitem (row : gmap string (option string)) (key : string)
  : outcome (option string) :=
  match row !! key with
  | Some v => Return v
  | None => Throw KeyError
  end.

(** [float(v)] and [int(v)] on a field: [TypeError] on [None]. *)
Definition convert {A : Type} (parse : string -> option A) (v : option string)
  : outcome A :=
  match v with
  | None => Throw TypeError
  | Some s =>
      match parse s with
      | Some a => Return a
      | None => Throw ValueError
      end
  end.

(** [s.split(sep)] for a separator of one character. *)
Fixpoint split (sep : Ascii.ascii) (s : string) : list string :=
  match s with
  | EmptyString => [EmptyString]
  | String c s' =>
      if Ascii.eqb c sep then EmptyString :: split sep s'
      else match split sep s' with
           | [] => [String c EmptyString]
           | w :: ws => String c w :: ws
           end
  end.

(** [l[i]] on a list. *)
Definition index {A : Type} (l : list A) (i : nat) : outcome A :=
  match l !! i with
  | Some a => Return a
  | None => Throw IndexError
  end.

(** [int(timestamp.split(" ")[1].split(":")[0])] (line 59). *)
Definition hour_of (parse_int : string -> option Z) (timestamp : option string)
  : outcome Z :=
  match timestamp with
  | None => Throw AttributeError
  | Some ts =>
      time_part ← index (split " "%char ts) 1;
      hour_part ← index (split ":"%char time_part) 0;
      convert parse_int (Some hour_part)
  end.

(** The value of the two [defaultdict]s: three lists. *)
Record Stats : Type := mkStats {
  response_times : list Q;
  db_queries : list Z;
  status_codes : list Z
}.

Definition empty_stats : Stats := mkStats [] [] [].

(** The three [append]s of lines 53-55 (and 60-62). *)
Definition stats_append (resp_time : Q) (queries status : Z) (s : Stats)
  : Stats :=
  mkStats (response_times s ++ [resp_time]) (db_queries s ++ [queries])
    (status_codes s ++ [status]).

(** [hourly_routes[hour]] updated; a dictionary keeps its keys in the
    order of their first insertion, which line 144 iterates over. *)
Fixpoint hourly_update (hour : Z) (f : Stats -> Stats) (h : list (Z * Stats))
  : list (Z * Stats) :=
  match h with
  | [] => [(hour, f empty_stats)]
  | (k, s) :: h' =>
      if k =? hour then (k, f s) :: h' else (k, s) :: hourly_update hour f h'
  end.

Record LoopState : Type := mkLoopState {
  endpoint_stats : gmap (option string) Stats;
  hourly_routes : list (Z * Stats);
  error_rows : list (gmap string (option string));
  count : nat
}.

Definition initial : LoopState := mkLoopState ∅ [] [] 0.

Section Loop.
Variable parse_float : string -> option Q.
Variable parse_int : string -> option Z.

(** Lines 47-51: the five fields of a row. *)
Definition read_fields (row : gmap string (option string))
  : outcome (option string * Q * Z * Z * option string) :=
  endpoint ← getitem row "endpoint";
  resp_time ← (v ← getitem row "response_time_ms"; convert parse_float v);
  queries ← (v ← getitem row "db_queries"; convert parse_int v);
  status ← (v ← getitem row "status_code"; convert parse_int v);
  timestamp ← getitem row "timestamp";
  Return (endpoint, resp_time, queries, status, timestamp).

(** Lines 47-68, the body of the inner [try]: the state reached, and the
    exception that ended the body, if any. *)
Definition try_body (st : LoopState) (row : gmap string (option string))
  : LoopState * option exc :=
  match read_fields row with
  | Throw e => (st, Some e)
  | Return (endpoint, resp_time, queries, status, timestamp) =>
      let st :=
        mkLoopState
          (<[endpoint :=
               stats_append resp_time queries status
                 (default empty_stats (endpoint_stats st !! endpoint))]>
             (endpoint_stats st))
          (hourly_routes st) (error_rows st) (count st) in
      let hourly :=
        if decide (endpoint = Some "/api/routes") then
          hour ← hour_of parse_int timestamp;
          Return (hourly_update hour (stats_append resp_time queries status)
                    (hourly_routes st))
        else Return (hourly_routes st) in
      match hourly with
      | Throw e => (st, Some e)
      | Return hourly =>
          let st :=
            mkLoopState (endpoint_stats st) hourly (error_rows st) (count st) in
          let st :=
            if 400 <=? status then
              mkLoopState (endpoint_stats st) (hourly_routes st)
                (error_rows st ++ [row]) (count st)
            else st in
          (st, None)
      end
  end.

(** Lines 44-69: one turn of the loop.  [ValueError] and [KeyError] are
    caught and the loop goes on; any other exception leaves the loop. *)
Definition process_row (st : LoopState) (row : gmap string (option string))
  : outcome LoopState :=
  let st :=
    mkLoopState (endpoint_stats st) (hourly_routes st) (error_rows st)
      (S (count st)) in
  match try_body st row with
  | (st, None) => Return st
  | (st, Some ValueError) | (st, Some KeyError) => Return st
  | (_, Some e) => Throw e
  end.

Fixpoint analyze_loop (rows : list (gmap string (option string)))
  (st : LoopState) : outcome LoopState :=
  match rows with
  | [] => Return st
  | row :: rows' => st' ← process_row st row; analyze_loop rows' st'
  end.

End Loop.

(** Lines 134-136: the arguments of the first correlation call. *)
Definition overall_lists (st : LoopState) : option (list Q * list Q) :=
  match endpoint_stats st !! Some "/api/routes" with
  | Some stats => Some (map inject_Z (db_queries stats), response_times stats)
  | None => None
  end.

(** Lines 141-151: the lists of the normal hours and of the peak hour,
    as [(normal_resp, normal_db, peak_resp, peak_db)]. *)
Definition split_peak (hourly : list (Z * Stats))
  : list Q * list Q * list Q * list Q :=
  fold_left
    (fun '(normal_resp, normal_db, peak_resp, peak_db) '(hour, h) =>
       if (13 <=? hour) && (hour <=? 13) then
         (normal_resp, normal_db,
          peak_resp ++ response_times h,
          peak_db ++ map inject_Z (db_queries h))
       else
         (normal_resp ++ response_times h,
          normal_db ++ map inject_Z (db_queries h),
          peak_resp, peak_db))
    hourly ([], [], [], []).

End Logs.

(** The exception a row ends the [try] body with, if any. *)
Definition row_error (parse_float : string -> option Q)
  (parse_int : string -> option Z) (row : gmap string (option string))
  : option Logs.exc :=
  match Logs.read_fields parse_float parse_int row with
  | Logs.Throw e => Some e
  | Logs.Return (endpoint, _, _, _, timestamp) =>
      if decide (endpoint = Some "/api/routes") then
        match Logs.hour_of parse_int timestamp with
        | Logs.Throw e => Some e
        | Logs.Return _ => None
        end
      else None
  end.

(** The exceptions the inner [except (ValueError, KeyError)] lets through. *)
Definition escapes (e : option Logs.exc) : bool :=
  match e with
  | None | Some Logs.ValueError | Some Logs.KeyError => false
  | Some _ => true
  end.

(** The three lists of an entry go together and are not empty. *)
Definition stats_ok (s : Logs.Stats) : Prop :=
  length (Logs.db_queries s) = length (Logs.response_times s)
  /\ length (Logs.status_codes s) = length (Logs.response_times s)
  /\ Logs.response_times s <> [].

(** What the rows with five readable fields give for one endpoint. *)
Definition contributions (parse_float : string -> option Q)
  (parse_int : string -> option Z) (endpoint : option string)
  (rows : list (gmap string (option string))) : Logs.Stats :=
  let readable :=
    omap
      (fun row =>
         match Logs.read_fields parse_float parse_int row with
         | Logs.Return (e, resp_time, queries, status, _) =>
             if decide (e = endpoint) then Some (resp_time, queries, status)
             else None
         | Logs.Throw _ => None
         end)
      rows in
  Logs.mkStats (map (fun t => t.1.1) readable) (map (fun t => t.1.2) readable)
    (map (fun t => t.2) readable).

(** The rows that reach line 67 with a status of 400 or more. *)
Definition is_error_row (parse_float : string -> option Q)
  (parse_int : string -> option Z) (row : gmap string (option string)) : bool :=
  match row_error parse_float parse_int row,
        Logs.read_fields parse_float parse_int row with
  | None, Logs.Return (_, _, _, status, _) => 400 <=? status
  | _, _ => false
  end.

(** The effect of one row on [endpoint_stats] (lines 53-55). *)
Definition stats_step (parse_float : string -> option Q)
  (parse_int : string -> option Z)
  (m : gmap (option string) Logs.Stats) (row : gmap string (option string))
  : gmap (option string) Logs.Stats :=
  match Logs.read_fields parse_float parse_int row with
  | Logs.Return (endpoint, resp_time, queries, status, _) =>
      <[endpoint :=
          Logs.stats_append resp_time queries status
            (default Logs.empty_stats (m !! endpoint))]> m
  | Logs.Throw _ => m
  end.

(** The state keeps the lists of every entry together, and every hour
    once. *)
Definition state_ok (st : Logs.LoopState) : Prop :=
  (forall endpoint s,
     Logs.endpoint_stats st !! endpoint = Some s -> stats_ok s)
  /\ Forall (fun entry => stats_ok entry.2) (Logs.hourly_routes st)
  /\ NoDup (map fst (Logs.hourly_routes st)).

(** Sample readers and rows for the examples: [sample_int] reads a
    non-empty text of decimal digits. *)
Fixpoint digits_value (s : string) (acc : Z) : option Z :=
  match s with
  | EmptyString => Some acc
  | String c s' =>
      let n := nat_of_ascii c in
      if (48 <=? n)%nat && (n <=? 57)%nat
      then digits_value s' (10 * acc + Z.of_nat (n - 48))
      else None
  end.

Definition sample_int (s : string) : option Z :=
  match s with
  | EmptyString => None
  | _ => digits_value s 0
  end.

Definition sample_float (s : string) : option Q := inject_Z <$> sample_int s.

Definition sample_row (endpoint response_time queries status timestamp : string)
  : gmap string (option string) :=
  list_to_map
    [("endpoint", Some endpoint); ("response_time_ms", Some response_time);
     ("db_queries", Some queries); ("status_code", Some status);
     ("timestamp", Some timestamp)].

Definition sample_rows : list (gmap string (option string)) :=
  [sample_row "/api/routes" "120" "3" "200" "2024-01-01 13:05:00";
   sample_row "/api/routes" "900" "9" "503" "2024-01-01 1x:00:00";
   sample_row "/api/users" "abc" "1" "200" "2024-01-01 09:00:00";
   sample_row "/api/routes" "200" "4" "500" "2024-01-01 13:20:00";
   sample_row "/api/users" "80" "2" "404" "2024-01-01 09:10:00"].

(** The state the loop reaches on [sample_rows]. *)
Definition sample_state : Logs.LoopState :=
  match Logs.analyze_loop sample_float sample_int sample_rows Logs.initial with
  | Logs.Return st => st
  | Logs.Throw _ => Logs.initial
  end.

(** ** The float operations as the interpreter computes them

    [max_distance ** 2], [math.sqrt], [time.time() + ex] and the arithmetic
    of [pearson_correlation] are binary floating point: they round, and
    [**] and the conversion of an int to a float raise [OverflowError]
    beyond the float range.  The definitions of this module are the same
    source functions with these library operations as parameters, so that
    what is proved of them holds for whatever the operations return.  A
    finite float is the rational it denotes; a comparison of an int with a
    float is exact in Python, and so it is here. *)

Module Fl.

Record MatchResult : Set :=
  mkMatchResult { driver_id : Z; package_id : Z; distance : Q }.

Section Matchers.

(** [max_distance ** 2]. *)
Variable float_square : Q -> result Q.

(** [math.sqrt(n)] on an int [n]. *)
Variable math_sqrt : Z -> result Q.

(** Lines 93-96: the body of the innermost loop. *)
Definition check_package (max_distance : Q) (driver : Driver)
  (matches : list MatchResult) (pkg : Package) : result (list MatchResult) :=
  if in_bounding_box driver pkg max_distance then
    limit ← float_square max_distance;
    if Qltb (inject_Z (dist_sq driver pkg)) limit then
      dist ← math_sqrt (dist_sq driver pkg);
      Ok (matches ++ [mkMatchResult (d_id driver) (p_id pkg) dist])
    else Ok matches
  else Ok matches.

(** Lines 86-96: the 3x3 scan around the driver's cell. *)
Definition scan_neighbors (grid : gmap (Z * Z) (list Package))
  (max_distance : Q) (driver : Driver) (d_key : Z * Z)
  (matches : list MatchResult) : result (list MatchResult) :=
  let '(dx_grid, dy_grid) := d_key in
  for_each
    (fun matches i =>
       for_each
         (fun matches j =>
            let neighbor_key := (dx_grid + i, dy_grid + j) in
            if decide (is_Some (grid !! neighbor_key)) then
              for_each (check_package max_distance driver)
                (grid_getitem grid neighbor_key) matches
            else Ok matches)
         (range (-1) 2) matches)
    (range (-1) 2) matches.

(** Step 2 (lines 80-96): query for each driver. *)
Definition query_drivers (grid : gmap (Z * Z) (list Package))
  (cell_size : Z) (max_distance : Q) (drivers : list Driver)
  : result (list MatchResult) :=
  for_each
    (fun matches driver =>
       d_key ← get_grid_key (d_x driver) (d_y driver) cell_size;
       scan_neighbors grid max_distance driver d_key matches)
    drivers [].

(** find_matches_optimized (lines 60-100). *)
Definition find_matches_optimized (drivers : list Driver)
  (packages : list Package) (max_distance : Q) : result (list MatchResult) :=
  let cell_size := py_int max_distance in
  grid ← build_grid packages cell_size;
  query_drivers grid cell_size max_distance drivers.

(** Lines 112-114: the body of the inner loop. *)
Definition brute_check (max_distance : Q) (driver : Driver)
  (matches : list MatchResult) (pkg : Package) : result (list MatchResult) :=
  dist ← math_sqrt (dist_sq driver pkg);
  if Qltb dist max_distance then
    Ok (matches ++ [mkMatchResult (d_id driver) (p_id pkg) dist])
  else Ok matches.

(** find_matches_brute_force (lines 102-118). *)
Definition find_matches_brute_force (drivers : list Driver)
  (packages : list Package) (max_distance : Q) : result (list MatchResult) :=
  for_each
    (fun matches driver =>
       for_each (brute_check max_distance driver) packages matches)
    drivers [].

(** The grid matcher with the condition of line 93 deleted, written out to
    compare it with the original. *)
Definition check_package_no_prefilter (max_distance : Q) (driver : Driver)
  (matches : list MatchResult) (pkg : Package) : result (list MatchResult) :=
  limit ← float_square max_distance;
  if Qltb (inject_Z (dist_sq driver pkg)) limit then
    dist ← math_sqrt (dist_sq driver pkg);
    Ok (matches ++ [mkMatchResult (d_id driver) (p_id pkg) dist])
  else Ok matches.

Definition scan_neighbors_no_prefilter (grid : gmap (Z * Z) (list Package))
  (max_distance : Q) (driver : Driver) (d_key : Z * Z)
  (matches : list MatchResult) : result (list MatchResult) :=
  let '(dx_grid, dy_grid) := d_key in
  for_each
    (fun matches i =>
       for_each
         (fun matches j =>
            let neighbor_key := (dx_grid + i, dy_grid + j) in
            if decide (is_Some (grid !! neighbor_key)) then
              for_each (check_package_no_prefilter max_distance driver)
                (grid_getitem grid neighbor_key) matches
            else Ok matches)
         (range (-1) 2) matches)
    (range (-1) 2) matches.

Definition query_drivers_no_prefilter (grid : gmap (Z * Z) (list Package))
  (cell_size : Z) (max_distance : Q) (drivers : list Driver)
  : result (list MatchResult) :=
  for_each
    (fun matches driver =>
       d_key ← get_grid_key (d_x driver) (d_y driver) cell_size;
       scan_neighbors_no_prefilter grid max_distance driver d_key matches)
    drivers [].

Definition find_matches_optimized_no_prefilter (drivers : list Driver)
  (packages : list Package) (max_distance : Q) : result (list MatchResult) :=
  let cell_size := py_int max_distance in
  grid ← build_grid packages cell_size;
  query_drivers_no_prefilter grid cell_size max_distance drivers.

(** The body of the innermost loop as a function of the pair. *)
Definition pair_body (max_distance : Q) (matches : list MatchResult)
  (dp : Driver * Package) : result (list MatchResult) :=
  check_package max_distance dp.1 matches dp.2.

(** The body of the inner loop of the brute force, likewise. *)
Definition brute_pair_body (max_distance : Q) (matches : list MatchResult)
  (dp : Driver * Package) : result (list MatchResult) :=
  brute_check max_distance dp.1 matches dp.2.

(** What the body of the innermost loop appends for one pair: the match,
    or nothing. *)
Definition found (max_distance : Q) (pair : Driver * Package)
  : list MatchResult :=
  match check_package max_distance pair.1 [] pair.2 with
  | Ok r => r
  | Raise _ => []
  end.

(** What the brute force appends for one pair. *)
Definition brute_found (max_distance : Q) (pair : Driver * Package)
  : list MatchResult :=
  match brute_check max_distance pair.1 [] pair.2 with
  | Ok r => r
  | Raise _ => []
  end.

End Matchers.

(** The pair of ids a match reports, and the ids of a pair. *)
Definition id_pair (r : MatchResult) : Z * Z := (driver_id r, package_id r).

Definition pair_ids (dp : Driver * Package) : Z * Z := (d_id dp.1, p_id dp.2).

(** All pairs, in the order the brute force reaches them. *)
Definition all_pairs (drivers : list Driver) (packages : list Package)
  : list (Driver * Package) :=
  flat_map (fun driver => map (pair driver) packages) drivers.

(** The pairs the grid matcher looks at, in the order it reaches them:
    driver after driver in input order; for one driver the nine cells in
    the order of the two loops; inside a cell the packages in input
    order. *)
Definition scanned_pairs (cell_size : Z) (drivers : list Driver)
  (packages : list Package) : list (Driver * Package) :=
  flat_map
    (fun driver =>
       flat_map
         (fun key => map (pair driver) (bucket cell_size packages key))
         (neighbor_keys (driver_key cell_size driver)))
    drivers.

(** *** MockRedis.set and the wrapper, with the float addition *)

Module MockRedis.

Section Store.

(** [time.time() + ex] on the clock reading and the int [ex]. *)
Variable float_add : Q -> Z -> Q.

(** [set] (lines 44-46), at clock reading [now]. *)
Definition set (now : Q) (name value : string) (ex : Z)
  (cache : gmap string (string * Q)) : gmap string (string * Q) :=
  let expiry := if 0 <? ex then float_add now ex else 0%Q in
  <[name := (value, expiry)]> cache.

End Store.

End MockRedis.

(** [wrapper] (lines 56-75), as [cache_response] above. *)
Definition cache_response {Args V : Type} (float_add : Q -> Z -> Q)
  (dumps_args : Args -> string) (dumps : V -> string) (loads : string -> V)
  (ttl_seconds : Z) (func_name : string) (func : Args -> V)
  (t_get t_set : Q) (args : Args)
  (st : gmap string (string * Q) * nat)
  : V * (gmap string (string * Q) * nat) :=
  let '(cache, calls) := st in
  let key_part := dumps_args args in
  let cache_key := cache_key func_name key_part in
  let '(cached_value, cache) := MockRedis.get t_get cache_key cache in
  if truthy cached_value then
    (loads (default EmptyString cached_value), (cache, calls))
  else
    let result := func args in
    let cache :=
      MockRedis.set float_add t_set cache_key (dumps result) ttl_seconds cache in
    (result, (cache, S calls)).

(** *** pearson_correlation (analyze_logs.py, lines 15-26) on floats *)

Section Pearson.

(** The floats, with [0.0], [x == 0], [-], [*] and [/] by a divisor that
    is not zero; none of them raises. *)
Variable F : Type.
Variable zero : F.
Variable eq_zero : F -> bool.

(** [sum] of floats, on a list that is not empty. *)
Variable fsum : list F -> F.

Variables sub mul div : F -> F -> F.

(** [x ** 2]: [None] is [OverflowError], its only exception. *)
Variable square : F -> option F.

(** [x ** 0.5]. *)
Variable root : F -> F.

(** [statistics.mean] of a list that is not empty. *)
Variable mean : list F -> F.

(** [statistics.mean(l)]: [StatisticsError] on an empty list. *)
Definition statistics_mean (l : list F) : result F :=
  match l with
  | [] => Raise StatisticsError
  | _ => Ok (mean l)
  end.

Definition float_pow2 (x : F) : result F :=
  match square x with
  | Some y => Ok y
  | None => Raise OverflowError
  end.

(** The terms of [((x - m) ** 2 for x in l)], in order: the first square
    that overflows ends the iteration. *)
Definition squares (m : F) (l : list F) : result (list F) :=
  for_each (fun ts x => t ← float_pow2 (sub x m); Ok (ts ++ [t])) l [].

(** [sum((x - m) ** 2 for x in l)]. *)
Definition sum_squares (m : F) (l : list F) : result F :=
  ts ← squares m l; Ok (fsum ts).

(** [num / den]: [ZeroDivisionError] when [den == 0]. *)
Definition float_div (num den : F) : result F :=
  if eq_zero den then Raise ZeroDivisionError else Ok (div num den).

Definition pearson_correlation (xs ys : list F) : result F :=
  let n := length xs in
  if (n <? 2)%nat then Ok zero
  else
    mean_x ← statistics_mean xs;
    mean_y ← statistics_mean ys;
    let numerator :=
      fsum (map (fun xy => mul (sub xy.1 mean_x) (sub xy.2 mean_y))
              (combine xs ys)) in
    sum_x ← sum_squares mean_x xs;
    sum_y ← sum_squares mean_y ys;
    let denominator := root (mul sum_x sum_y) in
    if negb (eq_zero denominator) then float_div numerator denominator
    else Ok zero.

End Pearson.

End Fl.
(** ** Binary64

    The float operations on IEEE 754 binary64 numbers ([spec_float] with
    53 bits of precision), rounding to nearest even: the instance of the
    parameters of [Fl] on which the functions are run on concrete
    inputs. *)

Module B64.

Definition prec : Z := 53.
Definition emax : Z := 1024.

(** [float(n)] on an int; infinite where Python raises [OverflowError]. *)
Definition of_Z (n : Z) : spec_float := binary_normalize prec emax n 0 false.

(** The float of a rational; exact on a binary64 number written with a
    numerator below [2^53] and a power of two as denominator. *)
Definition of_Q (q : Q) : spec_float :=
  SFdiv prec emax (of_Z (Qnum q)) (of_Z (Z.pos (Qden q))).

(** The rational a finite float denotes, in lowest terms. *)
Definition to_Q (x : spec_float) : Q :=
  match x with
  | S754_finite s m e => Qred (inject_Z (cond_Zopp s (Z.pos m)) * 2 ^ e)
  | _ => 0%Q
  end.

(** [f ** 2] as the rounded product; [OverflowError] beyond the float
    range. *)
Definition float_square (f : Q) : result Q :=
  let x := of_Q f in
  match SFmul prec emax x x with
  | S754_infinity _ | S754_nan => Raise OverflowError
  | r => Ok (to_Q r)
  end.

(** [math.sqrt(n)] on an int: [OverflowError] from the conversion,
    [ValueError] on a negative number. *)
Definition math_sqrt (n : Z) : result Q :=
  match of_Z n with
  | S754_infinity _ => Raise OverflowError
  | x =>
      match SFsqrt prec emax x with
      | S754_nan => Raise ValueError
      | r => Ok (to_Q r)
      end
  end.

(** [t + n] on a float and an int. *)
Definition float_add (t : Q) (n : Z) : Q :=
  to_Q (SFadd prec emax (of_Q t) (of_Z n)).

Definition zero : spec_float := S754_zero false.

Definition eq_zero (x : spec_float) : bool := SFeqb x zero.

(** [sum] of floats: additions from the left, starting from 0. *)
Definition fsum (l : list spec_float) : spec_float :=
  fold_left (SFadd prec emax) l zero.

(** [x ** 2] as the rounded product: an overflow of a finite [x] raises. *)
Definition square (x : spec_float) : option spec_float :=
  match x, SFmul prec emax x x with
  | S754_finite _ _ _, S754_infinity _ => None
  | _, r => Some r
  end.

(** A finite float as a multiple of [2^-1074]. *)
Definition scaled (x : spec_float) : option Z :=
  match x with
  | S754_zero _ => Some 0
  | S754_finite s m e => Some (cond_Zopp s (Z.pos m) * 2 ^ (e + 1074))
  | _ => None
  end.

(** [statistics.mean]: the exact sum divided by the length, rounded
    once. *)
Definition mean (l : list spec_float) : spec_float :=
  let n := of_Z (Z.of_nat (length l)) in
  match mapM scaled l with
  | Some ms =>
      match fold_right Z.add 0 ms with
      | 0 => zero
      | Z.pos p => SFdiv prec emax (S754_finite false p (-1074)) n
      | Z.neg p => SFdiv prec emax (S754_finite true p (-1074)) n
      end
  | None => SFdiv prec emax (fsum l) n
  end.

Definition find_matches_optimized :=
  Fl.find_matches_optimized float_square math_sqrt.

Definition find_matches_brute_force := Fl.find_matches_brute_force math_sqrt.

Definition find_matches_optimized_no_prefilter :=
  Fl.find_matches_optimized_no_prefilter float_square math_sqrt.

Definition pearson_correlation : list spec_float -> list spec_float ->
  result spec_float :=
  Fl.pearson_correlation spec_float zero eq_zero fsum
    (SFsub prec emax) (SFmul prec emax) (SFdiv prec emax)
    square (SFsqrt prec emax) mean.

End B64.
(** ** Loops *)

Section Loops.
Context {A B : Type}.

Lemma for_each_app (body : list B -> A -> result (list B)) (g : A -> list B)
    (l : list A) :
  (forall s a, a ∈ l -> body s a = Ok (s ++ g a)) ->
  forall s, for_each body l s = Ok (s ++ flat_map g l).
Proof.
  induction l as [|a l IH]; intros Hbody s; simpl.
  - by rewrite app_nil_r.
  - rewrite Hbody by left. simpl. rewrite IH.
    + by rewrite <- app_assoc.
    + intros s' a' Ha'. apply Hbody. by right.
Qed.

End Loops.

(** ** Arithmetic *)

Lemma Qltb_lt (a b : Q) : Qltb a b = true <-> (a < b)%Q.
Proof.
  unfold Qltb. rewrite Qlt_alt. destruct (a ?= b)%Q; split; congruence.
Qed.

Lemma Qltb_ge (a b : Q) : Qltb a b = false <-> (b <= a)%Q.
Proof.
  rewrite <- not_true_iff_false, Qltb_lt. split.
  - apply Qnot_lt_le.
  - apply Qle_not_lt.
Qed.

Lemma dist_sq_nonneg driver pkg : 0 <= dist_sq driver pkg.
Proof. unfold dist_sq. nia. Qed.

Lemma math_sqrt_dist_sq driver pkg :
  math_sqrt (inject_Z (dist_sq driver pkg))
  = Ok (mkSurd (inject_Z (dist_sq driver pkg))).
Proof.
  unfold math_sqrt.
  assert (Qltb (inject_Z (dist_sq driver pkg)) 0 = false) as ->; [|done].
  apply Qltb_ge. change 0%Q with (inject_Z 0). rewrite <- Zle_Qle.
  apply dist_sq_nonneg.
Qed.

(** ** The grid builder *)

Lemma get_grid_key_nonzero x y cell_size :
  cell_size <> 0 -> get_grid_key x y cell_size = Ok (cell_key cell_size x y).
Proof.
  intros Hc. unfold get_grid_key, floordiv.
  destruct (Z.eqb_spec cell_size 0) as [?|_]; [done|reflexivity].
Qed.

Lemma build_grid_from cell_size packages grid :
  cell_size <> 0 ->
  for_each
    (fun grid pkg =>
       key ← get_grid_key (p_x pkg) (p_y pkg) cell_size;
       Ok (grid_append grid key pkg))
    packages grid
  = Ok (fold_left
          (fun grid pkg => grid_append grid (package_key cell_size pkg) pkg)
          packages grid).
Proof.
  intros Hc. revert grid.
  induction packages as [|pkg packages IH]; intros grid; simpl; [done|].
  rewrite get_grid_key_nonzero by done. simpl. apply IH.
Qed.

Lemma build_grid_nonzero cell_size packages :
  cell_size <> 0 -> build_grid packages cell_size = Ok (grid_of cell_size packages).
Proof. intros Hc. by apply build_grid_from. Qed.

Lemma build_grid_zero pkg packages :
  build_grid (pkg :: packages) 0 = Raise ZeroDivisionError.
Proof. reflexivity. Qed.

Lemma bucket_app cell_size l1 l2 key :
  bucket cell_size (l1 ++ l2) key
  = bucket cell_size l1 key ++ bucket cell_size l2 key.
Proof. unfold bucket. apply filter_app. Qed.

Lemma grid_of_snoc cell_size packages pkg :
  grid_of cell_size (packages ++ [pkg])
  = grid_append (grid_of cell_size packages) (package_key cell_size pkg) pkg.
Proof. unfold grid_of. by rewrite fold_left_app. Qed.

(** Every bucket of the grid holds the packages of its cell, in input
    order; a cell without packages has no entry. *)
Lemma grid_of_lookup cell_size packages key :
  grid_of cell_size packages !! key
  = match bucket cell_size packages key with
    | [] => None
    | pkgs => Some pkgs
    end.
Proof.
  induction packages as [|pkg packages IH] using rev_ind.
  - unfold grid_of. simpl. by rewrite lookup_empty.
  - rewrite grid_of_snoc, bucket_app. unfold grid_append, grid_getitem.
    destruct (decide (package_key cell_size pkg = key)) as [Heq|Hne].
    + subst key. rewrite lookup_insert_eq, IH.
      unfold bucket at 3. rewrite filter_cons_True, filter_nil by done.
      destruct (bucket cell_size packages (package_key cell_size pkg)) eqn:E; simpl.
      * done.
      * done.
    + rewrite lookup_insert_ne by done. rewrite IH.
      unfold bucket at 3. rewrite filter_cons_False, filter_nil by done.
      by rewrite app_nil_r.
Qed.

Lemma grid_of_getitem cell_size packages key :
  grid_getitem (grid_of cell_size packages) key = bucket cell_size packages key.
Proof.
  unfold grid_getitem. rewrite grid_of_lookup.
  by destruct (bucket cell_size packages key).
Qed.

(** ** The two matchers as list comprehensions *)

Lemma matches_among_flat_map test driver pkgs :
  matches_among test driver pkgs
  = flat_map (fun pkg => matches_among test driver [pkg]) pkgs.
Proof.
  unfold matches_among. induction pkgs as [|pkg pkgs IH]; [done|].
  simpl. rewrite <- IH. rewrite filter_cons.
  destruct (decide (test driver pkg = true)) as [H|H].
  - rewrite filter_cons_True, filter_nil by done. done.
  - rewrite filter_cons_False, filter_nil by done. done.
Qed.

Lemma check_package_spec max_distance driver matches pkg :
  check_package max_distance driver matches pkg
  = Ok (matches ++ matches_among (accepts max_distance) driver [pkg]).
Proof.
  unfold check_package, matches_among, accepts.
  rewrite filter_cons, filter_nil.
  destruct (in_bounding_box driver pkg max_distance);
    destruct (Qltb (inject_Z (dist_sq driver pkg)) (max_distance ^ 2));
    rewrite ?math_sqrt_dist_sq; simpl; by rewrite ?app_nil_r.
Qed.

Lemma scan_bucket_spec max_distance driver pkgs matches :
  for_each (check_package max_distance driver) pkgs matches
  = Ok (matches ++ matches_among (accepts max_distance) driver pkgs).
Proof.
  rewrite (matches_among_flat_map _ _ pkgs).
  apply for_each_app. intros. apply check_package_spec.
Qed.

Lemma range_3x3 : range (-1) 2 = [-1; 0; 1].
Proof. reflexivity. Qed.

Lemma scan_neighbors_spec grid max_distance driver d_key matches :
  scan_neighbors grid max_distance driver d_key matches
  = Ok (matches ++
        flat_map
          (fun key =>
             matches_among (accepts max_distance) driver (grid_getitem grid key))
          (neighbor_keys d_key)).
Proof.
  destruct d_key as [cx cy]. unfold scan_neighbors.
  set (cell := fun key =>
         matches_among (accepts max_distance) driver (grid_getitem grid key)).
  assert (Hinner : forall i s,
    for_each
      (fun matches j =>
         let neighbor_key := (cx + i, cy + j) in
         if decide (is_Some (grid !! neighbor_key)) then
           for_each (check_package max_distance driver)
             (grid_getitem grid neighbor_key) matches
         else Ok matches)
      (range (-1) 2) s
    = Ok (s ++ flat_map (fun j => cell (cx + i, cy + j)) (range (-1) 2))).
  { intros i s. apply for_each_app. intros s' j _. simpl.
    destruct (decide (is_Some (grid !! (cx + i, cy + j)))) as [Hin|Hout].
    - apply scan_bucket_spec.
    - unfold cell, grid_getitem.
      destruct (grid !! (cx + i, cy + j)) eqn:E.
      + exfalso. apply Hout. by eexists.
      + simpl. by rewrite app_nil_r. }
  rewrite (for_each_app _
    (fun i => flat_map (fun j => cell (cx + i, cy + j)) (range (-1) 2))).
  - rewrite range_3x3. simpl. rewrite !app_nil_r.
    rewrite !Z.add_0_r. rewrite <- !app_assoc. reflexivity.
  - intros s i _. apply Hinner.
Qed.

Lemma query_drivers_nonzero grid cell_size max_distance drivers :
  cell_size <> 0 ->
  query_drivers grid cell_size max_distance drivers
  = Ok (flat_map
          (fun driver =>
             flat_map
               (fun key =>
                  matches_among (accepts max_distance) driver
                    (grid_getitem grid key))
               (neighbor_keys (driver_key cell_size driver)))
          drivers).
Proof.
  intros Hc. unfold query_drivers.
  rewrite (for_each_app _
    (fun driver =>
       flat_map
         (fun key =>
            matches_among (accepts max_distance) driver (grid_getitem grid key))
         (neighbor_keys (driver_key cell_size driver)))); [done|].
  intros s driver _. rewrite get_grid_key_nonzero by done.
  apply scan_neighbors_spec.
Qed.

(** What [find_matches_optimized] computes, for every input. *)
Lemma find_matches_optimized_spec drivers packages max_distance :
  find_matches_optimized drivers packages max_distance
  = if decide (py_int max_distance = 0 /\ (packages <> [] \/ drivers <> []))
    then Raise ZeroDivisionError
    else Ok (grid_order_matches (py_int max_distance) max_distance
               drivers packages).
Proof.
  unfold find_matches_optimized.
  destruct (decide (py_int max_distance = 0)) as [Hz|Hnz].
  - rewrite Hz. destruct packages as [|pkg packages].
    + destruct drivers as [|driver drivers].
      * rewrite decide_False by (intros [_ [?|?]]; done). reflexivity.
      * rewrite decide_True by (split; [done|by right]). reflexivity.
    + rewrite decide_True by (split; [done|by left]). reflexivity.
  - rewrite decide_False by (intros [? _]; done).
    rewrite build_grid_nonzero by done. simpl.
    rewrite query_drivers_nonzero by done. f_equal.
    unfold grid_order_matches. apply flat_map_ext. intros driver.
    apply flat_map_ext. intros key. by rewrite grid_of_getitem.
Qed.

Lemma brute_check_spec max_distance driver matches pkg :
  brute_check max_distance driver matches pkg
  = Ok (matches ++ matches_among (brute_accepts max_distance) driver [pkg]).
Proof.
  unfold brute_check, matches_among, brute_accepts.
  rewrite math_sqrt_dist_sq, filter_cons, filter_nil.
  change (Ok ?a ≫= ?k) with (k a). cbv beta.
  destruct (surd_ltb _ max_distance); simpl; by rewrite ?app_nil_r.
Qed.

(** What [find_matches_brute_force] computes, for every input. *)
Lemma find_matches_brute_force_spec drivers packages max_distance :
  find_matches_brute_force drivers packages max_distance
  = Ok (input_order_matches max_distance drivers packages).
Proof.
  unfold find_matches_brute_force, input_order_matches.
  rewrite (for_each_app _
    (fun driver => matches_among (brute_accepts max_distance) driver packages));
    [done|].
  intros s driver _. rewrite (matches_among_flat_map _ _ packages).
  apply for_each_app. intros. apply brute_check_spec.
Qed.

(** ** The two acceptance tests agree *)

Lemma accepts_brute_accepts max_distance driver pkg :
  accepts max_distance driver pkg = brute_accepts max_distance driver pkg.
Proof.
  unfold accepts, brute_accepts, surd_ltb, in_bounding_box, radicand.
  change (max_distance ^ 2)%Q with (max_distance * max_distance)%Q.
  pose proof (dist_sq_nonneg driver pkg) as Hnn.
  apply eq_true_iff_eq.
  rewrite !andb_true_iff, !Qltb_lt, !Qle_bool_iff.
  destruct max_distance as [n d]. unfold Qlt, Qle, dist_sq in *. simpl.
  rewrite !Z.mul_1_r, Pos2Z.inj_mul.
  set (a := d_x driver - p_x pkg) in *. set (b := d_y driver - p_y pkg) in *.
  assert (0 < Z.pos d) as Hd by lia.
  split.
  - intros [[Ha Hb] Hlt]. split; [|done]. nia.
  - intros [Hn Hlt]. split; [|done].
    assert (Z.abs a * Z.abs a = a ^ 2) as Ea by nia.
    assert (Z.abs b * Z.abs b = b ^ 2) as Eb by nia.
    split.
    + destruct (Z_le_gt_dec (Z.abs a * Z.pos d) n) as [|Hgt]; [done|exfalso].
      assert (n * n < (Z.abs a * Z.pos d) * (Z.abs a * Z.pos d)) by nia. nia.
    + destruct (Z_le_gt_dec (Z.abs b * Z.pos d) n) as [|Hgt]; [done|exfalso].
      assert (n * n < (Z.abs b * Z.pos d) * (Z.abs b * Z.pos d)) by nia. nia.
Qed.

(** ** Completeness of the 3x3 scan *)

Lemma py_int_nonzero_bound (max_distance : Q) (a : Z) :
  py_int max_distance <> 0 ->
  (inject_Z (Z.abs a) <= max_distance)%Q ->
  0 < py_int max_distance /\ Z.abs a < py_int max_distance + 1.
Proof.
  destruct max_distance as [n d]. unfold py_int, Qle. simpl.
  rewrite Z.mul_1_r. intros Hnz Hle.
  assert (0 <= n) as Hn by nia.
  rewrite Z.quot_div_nonneg in * by lia.
  pose proof (Z.div_pos n (Z.pos d) Hn ltac:(lia)) as Hq.
  pose proof (Z.mul_succ_div_gt n (Z.pos d) ltac:(lia)) as Hgt.
  split; [lia|nia].
Qed.

Lemma floordiv_close (c a b : Z) :
  0 < c -> Z.abs (a - b) <= c ->
  b / c = a / c - 1 \/ b / c = a / c \/ b / c = a / c + 1.
Proof.
  intros Hc Hab.
  pose proof (Z.div_mod a c ltac:(lia)) as Ea.
  pose proof (Z.div_mod b c ltac:(lia)) as Eb.
  pose proof (Z.mod_pos_bound a c Hc) as Ra.
  pose proof (Z.mod_pos_bound b c Hc) as Rb.
  assert (-2 < b / c - a / c < 2) by nia. lia.
Qed.

Lemma neighbor_keys_close (cx cy kx ky : Z) :
  (kx = cx - 1 \/ kx = cx \/ kx = cx + 1) ->
  (ky = cy - 1 \/ ky = cy \/ ky = cy + 1) ->
  (kx, ky) ∈ neighbor_keys (cx, cy).
Proof.
  unfold neighbor_keys. rewrite !elem_of_cons.
  intros [->|[->| ->]] [->|[->| ->]]; tauto.
Qed.

Lemma neighbor_keys_NoDup key : NoDup (neighbor_keys key).
Proof.
  destruct key as [cx cy]. unfold neighbor_keys.
  repeat (apply NoDup_cons; split;
          [rewrite ?not_elem_of_cons; repeat split;
           first [apply not_elem_of_nil | intros [= ]; lia] |]).
  apply NoDup_nil. done.
Qed.

(** A package in the bounding box of a driver lies in one of the nine
    cells around the driver, whenever the cell size is not 0. *)
Lemma bounding_box_neighbor max_distance driver pkg :
  py_int max_distance <> 0 ->
  in_bounding_box driver pkg max_distance = true ->
  package_key (py_int max_distance) pkg
  ∈ neighbor_keys (driver_key (py_int max_distance) driver).
Proof.
  intros Hnz. unfold in_bounding_box.
  rewrite andb_true_iff, !Qle_bool_iff. intros [Hx Hy].
  destruct (py_int_nonzero_bound _ _ Hnz Hx) as [Hc Hbx].
  destruct (py_int_nonzero_bound _ _ Hnz Hy) as [_ Hby].
  unfold package_key, driver_key, cell_key.
  apply neighbor_keys_close; apply floordiv_close; lia.
Qed.

(** ** Buckets partition the packages *)

Section Partition.
Context {A K : Type} `{EqDecision K}.
Variable key_of : A -> K.
Variable P : A -> Prop.
Context `{forall a, Decision (P a)}.

Lemma filter_disjoint_app (Q1 Q2 : A -> Prop)
    `{forall a, Decision (Q1 a)} `{forall a, Decision (Q2 a)} (l : list A) :
  (forall a, Q1 a -> Q2 a -> False) ->
  filter Q1 l ++ filter Q2 l ≡ₚ filter (fun a => Q1 a \/ Q2 a) l.
Proof.
  intros Hdis. induction l as [|a l IH]; [done|].
  rewrite !filter_cons.
  destruct (decide (Q1 a)) as [Ha1|Ha1], (decide (Q2 a)) as [Ha2|Ha2].
  - destruct (Hdis a Ha1 Ha2).
  - rewrite decide_True by tauto. simpl. by rewrite IH.
  - rewrite decide_True by tauto. rewrite <- Permutation_middle. by rewrite IH.
  - rewrite decide_False by tauto. done.
Qed.

(** Scanning the buckets of distinct keys visits each selected element
    whose key is among them exactly once. *)
Lemma scan_buckets_perm (keys : list K) (l : list A) :
  NoDup keys ->
  flat_map (fun k => filter P (filter (fun a => key_of a = k) l)) keys
  ≡ₚ filter (fun a => P a /\ key_of a ∈ keys) l.
Proof.
  induction keys as [|k keys IH]; intros Hnd; simpl.
  - rewrite (list_filter_iff _ (fun _ => False)).
    + induction l as [|a l IHl]; [done|].
      rewrite filter_cons_False by tauto. exact IHl.
    + intros a. rewrite elem_of_nil. tauto.
  - apply NoDup_cons in Hnd as [Hk Hnd]. rewrite IH by done.
    rewrite list_filter_filter.
    rewrite filter_disjoint_app.
    + apply reflexive_eq, list_filter_iff. intros a.
      rewrite elem_of_cons. tauto.
    + intros a [_ Ha] [_ Hin]. by subst k.
Qed.

End Partition.

Lemma flat_map_fmap {A B C : Type} (f : B -> C) (g : A -> list B) (l : list A) :
  flat_map (fun a => map f (g a)) l = map f (flat_map g l).
Proof.
  induction l as [|a l IH]; [done|]. simpl. by rewrite IH, map_app.
Qed.

Lemma flat_map_Permutation {A B : Type} (f g : A -> list B) (l : list A) :
  (forall a, a ∈ l -> f a ≡ₚ g a) -> flat_map f l ≡ₚ flat_map g l.
Proof.
  induction l as [|a l IH]; intros Hfg; [done|]. simpl.
  rewrite (Hfg a) by left. rewrite IH; [done|].
  intros a' Ha'. apply Hfg. by right.
Qed.

(** ** Surds as real numbers *)





(** ** The contents of the grid *)

Lemma grid_contents_append grid key pkg :
  grid_contents (grid_append grid key pkg) ≡ₚ grid_contents grid ++ [pkg].
Proof.
  unfold grid_contents, grid_append, grid_getitem.
  destruct (grid !! key) as [pkgs|] eqn:E; simpl.
  - rewrite <- insert_delete_eq.
    rewrite map_to_list_insert by apply lookup_delete_eq.
    rewrite <- (map_to_list_delete grid key pkgs E). simpl.
    rewrite <- !app_assoc. apply Permutation_app_head, Permutation_app_comm.
  - rewrite map_to_list_insert by done. simpl.
    apply Permutation_cons_append.
Qed.

Lemma grid_of_contents cell_size packages :
  grid_contents (grid_of cell_size packages) ≡ₚ packages.
Proof.
  induction packages as [|pkg packages IH] using rev_ind.
  - unfold grid_of, grid_contents. simpl. by rewrite map_to_list_empty.
  - rewrite grid_of_snoc, grid_contents_append. by rewrite IH.
Qed.

(** ** Priorities are not read *)

Lemma map_filter_Forall2 {A B : Type} (R : A -> A -> Prop) (f : A -> B)
    (P : A -> Prop) `{forall a, Decision (P a)} (l l' : list A) :
  (forall a a', R a a' -> (P a <-> P a') /\ f a = f a') ->
  Forall2 R l l' ->
  map f (filter P l) = map f (filter P l').
Proof.
  intros HR. induction 1 as [|a a' l l' Ha _ IH]; [done|].
  destruct (HR a a' Ha) as [HP Hf]. rewrite !filter_cons.
  destruct (decide (P a)), (decide (P a')); try tauto; simpl; congruence.
Qed.

Lemma in_bounding_box_priority driver p q max_distance :
  same_but_priority p q ->
  in_bounding_box driver p max_distance = in_bounding_box driver q max_distance.
Proof. intros (_ & Hx & Hy). unfold in_bounding_box. by rewrite Hx, Hy. Qed.

Lemma dist_sq_priority driver p q :
  same_but_priority p q -> dist_sq driver p = dist_sq driver q.
Proof. intros (_ & Hx & Hy). unfold dist_sq. by rewrite Hx, Hy. Qed.

Lemma match_of_priority driver p q :
  same_but_priority p q -> match_of driver p = match_of driver q.
Proof.
  intros H. unfold match_of. rewrite (dist_sq_priority _ _ _ H).
  destruct H as (-> & _). done.
Qed.

Lemma accepts_priority max_distance driver p q :
  same_but_priority p q ->
  accepts max_distance driver p = accepts max_distance driver q.
Proof.
  intros H. unfold accepts.
  by rewrite (in_bounding_box_priority _ _ _ _ H), (dist_sq_priority _ _ _ H).
Qed.

Lemma package_key_priority cell_size p q :
  same_but_priority p q -> package_key cell_size p = package_key cell_size q.
Proof. intros (_ & Hx & Hy). unfold package_key. by rewrite Hx, Hy. Qed.

Lemma grid_order_matches_priority cell_size max_distance drivers ps ps' :
  Forall2 same_but_priority ps ps' ->
  grid_order_matches cell_size max_distance drivers ps
  = grid_order_matches cell_size max_distance drivers ps'.
Proof.
  intros Hps. unfold grid_order_matches.
  apply flat_map_ext. intros driver. apply flat_map_ext. intros key.
  unfold matches_among, bucket. rewrite !list_filter_filter.
  apply (map_filter_Forall2 same_but_priority); [|done].
  intros p q Hpq.
  rewrite (accepts_priority _ _ _ _ Hpq), (package_key_priority _ _ _ Hpq).
  split; [done|]. by apply match_of_priority.
Qed.

Lemma input_order_matches_priority max_distance drivers ps ps' :
  Forall2 same_but_priority ps ps' ->
  input_order_matches max_distance drivers ps
  = input_order_matches max_distance drivers ps'.
Proof.
  intros Hps. unfold input_order_matches.
  apply flat_map_ext. intros driver. unfold matches_among.
  apply (map_filter_Forall2 same_but_priority); [|done].
  intros p q Hpq. rewrite <- !accepts_brute_accepts.
  rewrite (accepts_priority _ _ _ _ Hpq).
  split; [done|]. by apply match_of_priority.
Qed.

(** ** Loops with equal bodies *)

Lemma for_each_ext {A S : Type} (f g : S -> A -> result S) (l : list A) :
  (forall s a, f s a = g s a) -> forall s, for_each f l s = for_each g l s.
Proof.
  intros Hfg. induction l as [|a l IH]; intros s; simpl; [done|].
  rewrite Hfg. destruct (g s a); simpl; [apply IH|done].
Qed.

(** ** Thresholds that are not positive *)

Lemma accepts_nonpositive max_distance driver pkg :
  (max_distance <= 0)%Q -> accepts max_distance driver pkg = false.
Proof.
  intros Hle. rewrite accepts_brute_accepts. unfold brute_accepts, surd_ltb.
  apply Qltb_ge in Hle. by rewrite Hle.
Qed.

Lemma flat_map_all_nil {A B : Type} (f : A -> list B) (l : list A) :
  (forall a, f a = []) -> flat_map f l = [].
Proof. intros Hf. induction l as [|a l IH]; [done|]. simpl. by rewrite Hf, IH. Qed.

Lemma grid_order_matches_nonpositive cell_size max_distance drivers packages :
  (max_distance <= 0)%Q ->
  grid_order_matches cell_size max_distance drivers packages = [].
Proof.
  intros Hle. unfold grid_order_matches.
  apply flat_map_all_nil. intros driver. apply flat_map_all_nil. intros key.
  unfold matches_among.
  rewrite (list_filter_iff _ (fun _ => False)).
  - induction (bucket cell_size packages key) as [|a l IHl]; [done|].
    rewrite filter_cons_False by tauto. exact IHl.
  - intros pkg. rewrite accepts_nonpositive by done. split; [done|tauto].
Qed.

(** ** Floor division and truncation *)

Lemma Qfloor_div (x c : Z) :
  0 < c -> Qfloor (inject_Z x / inject_Z c) = x / c.
Proof.
  intros Hc. destruct c as [|p|p]; try lia.
  unfold Qdiv, Qinv, Qmult, inject_Z, Qfloor. simpl.
  by rewrite Z.mul_1_r.
Qed.

Lemma py_int_inject_Z (n : Z) : py_int (inject_Z n) = n.
Proof. unfold py_int. simpl. apply Z.quot_1_r. Qed.

Lemma py_int_negative (max_distance : Q) :
  py_int max_distance < 0 -> (max_distance <= 0)%Q.
Proof.
  destruct max_distance as [n d]. unfold py_int, Qle. simpl.
  rewrite Z.mul_1_r. intros Hq.
  destruct (Z_le_gt_dec n 0) as [|Hn]; [done|exfalso].
  rewrite Z.quot_div_nonneg in Hq by lia.
  pose proof (Z.div_pos n (Z.pos d) ltac:(lia) ltac:(lia)). lia.
Qed.

(** * The claims *)

(** C1 (fails on the code).  The grid matcher and the brute-force matcher
    do not agree for every positive [max_distance]: with [max_distance = 0.5]
    the cell size is [int(0.5) = 0], so the grid matcher raises
    [ZeroDivisionError] on the first package, while the brute-force matcher
    returns the match of a driver and a package at the same point. *)
Theorem grid_differs_below_one :
  find_matches_optimized [mkDriver 1 0 0] [mkPackage 7 0 0 "high"] (1 # 2)
  = Raise ZeroDivisionError
  /\ find_matches_brute_force [mkDriver 1 0 0] [mkPackage 7 0 0 "high"] (1 # 2)
     = Ok [mkMatchResult 1 7 (mkSurd 0)].
Proof. split; reflexivity. Qed.

(** C2 (fails on the code).  The cell size of [find_matches_optimized] is
    [int(max_distance)]: it equals [max_distance] when that is a whole
    number, but for [max_distance = 50.5] it is 50, below the threshold, and
    for [max_distance = 0.5] it is 0. *)
Theorem cell_size_truncated :
  (forall drivers packages max_distance,
     find_matches_optimized drivers packages max_distance
     = grid ← build_grid packages (py_int max_distance);
       query_drivers grid (py_int max_distance) max_distance drivers)
  /\ (forall n : Z, py_int (inject_Z n) = n)
  /\ py_int (101 # 2) = 50
  /\ (inject_Z (py_int (101 # 2)) < 101 # 2)%Q
  /\ (0 < 1 # 2)%Q
  /\ py_int (1 # 2) = 0.
Proof.
  split; [reflexivity|]. split; [apply py_int_inject_Z|].
  repeat split; reflexivity.
Qed.

(** C4 (counterexample).  With [max_distance = -5] the matcher raises
    nothing: it returns the empty list. *)
Lemma negative_threshold_returns :
  (-5 <= 0)%Q
  /\ find_matches_optimized [mkDriver 1 0 0] [mkPackage 7 0 0 "high"] (-5)
     = Ok [].
Proof. split; [done|reflexivity]. Qed.

(** C4 (amended).  The matcher validates nothing and raises no
    configuration error.  When [max_distance <= 0], or the cell size
    [int(max_distance)] is [<= 0], it returns the empty list whenever the cell
    size is not 0 or both input lists are empty. *)
Theorem nonpositive_threshold_outcome drivers packages max_distance :
  (max_distance <= 0)%Q \/ py_int max_distance <= 0 ->
  py_int max_distance <> 0 \/ (drivers = [] /\ packages = []) ->
  find_matches_optimized drivers packages max_distance = Ok [].
Proof.
  intros Hcfg Hrun. rewrite find_matches_optimized_spec.
  destruct Hrun as [Hnz|[-> ->]].
  - rewrite decide_False by tauto. f_equal.
    apply grid_order_matches_nonpositive.
    destruct Hcfg as [|Hc]; [done|]. apply py_int_negative. lia.
  - rewrite decide_False by (intros [_ [?|?]]; done). reflexivity.
Qed.

Lemma nonpositive_threshold_outcome_witness :
  ((-5 <= 0)%Q \/ py_int (-5) <= 0)
  /\ (py_int (-5) <> 0 \/ ([mkDriver 1 0 0] = [] /\ [mkPackage 7 0 0 "high"] = []))
  /\ find_matches_optimized [mkDriver 1 0 0] [mkPackage 7 0 0 "high"] (-5)
     = Ok [].
Proof.
  split; [left; done|]. split; [left; done|].
  apply (nonpositive_threshold_outcome [mkDriver 1 0 0]
           [mkPackage 7 0 0 "high"] (-5)).
  - left. done.
  - left. done.
Defined.

(** C7.  With a cell size that is not 0 the grid is built, and the bucket
    of every key is the list of the input packages with that cell key, in
    input order: each package is in the bucket of its own key and in no
    other, the buckets together are a rearrangement of the input, a key has
    an entry exactly when some package has that key, and reading a key
    without entry gives the empty list. *)
Theorem grid_partitions_packages packages cell_size :
  cell_size <> 0 ->
  exists grid,
    build_grid packages cell_size = Ok grid
    /\ (forall key,
          grid_getitem grid key
          = filter (fun pkg => package_key cell_size pkg = key) packages)
    /\ (forall pkg key,
          pkg ∈ grid_getitem grid key
          <-> pkg ∈ packages /\ package_key cell_size pkg = key)
    /\ grid_contents grid ≡ₚ packages
    /\ (forall key,
          grid !! key = None
          <-> forall pkg, pkg ∈ packages -> package_key cell_size pkg <> key)
    /\ (forall key, grid !! key = None -> grid_getitem grid key = []).
Proof.
  intros Hc. exists (grid_of cell_size packages).
  split; [by apply build_grid_nonzero|].
  split; [apply grid_of_getitem|].
  split.
  { intros pkg key. rewrite grid_of_getitem. unfold bucket.
    rewrite list_elem_of_filter. tauto. }
  split; [apply grid_of_contents|].
  split.
  - intros key. rewrite grid_of_lookup.
    destruct (bucket cell_size packages key) as [|pkg pkgs] eqn:E.
    + split; [|done]. intros _ pkg Hin Hkey.
      assert (pkg ∈ bucket cell_size packages key) as Hb
        by (apply list_elem_of_filter; done).
      rewrite E in Hb. by apply elem_of_nil in Hb.
    + split; [done|]. intros Hnone.
      assert (pkg ∈ bucket cell_size packages key) as Hb
        by (rewrite E; left).
      apply list_elem_of_filter in Hb as [Hkey Hin].
      by destruct (Hnone pkg Hin).
  - intros key Hnone. unfold grid_getitem. by rewrite Hnone.
Qed.

Lemma grid_partitions_packages_witness :
  50 <> 0
  /\ exists grid,
       build_grid [mkPackage 1 10 10 "high"; mkPackage 2 (-10) 70 "low";
                   mkPackage 3 20 30 "high"] 50 = Ok grid
       /\ grid_getitem grid (0, 0)
          = [mkPackage 1 10 10 "high"; mkPackage 3 20 30 "high"]
       /\ grid_getitem grid (5, 5) = [].
Proof.
  split; [done|].
  destruct (grid_partitions_packages
              [mkPackage 1 10 10 "high"; mkPackage 2 (-10) 70 "low";
               mkPackage 3 20 30 "high"] 50)
    as (grid & Hbuild & Hget & _); [done|].
  exists grid. split; [exact Hbuild|].
  split; rewrite Hget; reflexivity.
Defined.

(** C8.  Neither matcher reads the priority of a package: on two package
    lists that agree, position by position, on id and coordinates, each
    matcher gives the same outcome. *)
Theorem priority_not_read drivers packages packages' max_distance :
  Forall2 same_but_priority packages packages' ->
  find_matches_optimized drivers packages max_distance
  = find_matches_optimized drivers packages' max_distance
  /\ find_matches_brute_force drivers packages max_distance
     = find_matches_brute_force drivers packages' max_distance.
Proof.
  intros Hps. split.
  - rewrite !find_matches_optimized_spec.
    rewrite (grid_order_matches_priority _ _ _ _ _ Hps).
    assert (packages <> [] <-> packages' <> []) as Hne
      by (destruct Hps; split; done).
    destruct (decide (py_int max_distance = 0
                      /\ (packages <> [] \/ drivers <> []))),
             (decide (py_int max_distance = 0
                      /\ (packages' <> [] \/ drivers <> []))); tauto || done.
  - rewrite !find_matches_brute_force_spec.
    by rewrite (input_order_matches_priority _ _ _ _ Hps).
Qed.

Lemma priority_not_read_witness :
  find_matches_optimized [mkDriver 1 0 0]
    [mkPackage 7 30 0 "high"; mkPackage 8 90 0 "high"] 50
  = find_matches_optimized [mkDriver 1 0 0]
      [mkPackage 7 30 0 "low"; mkPackage 8 90 0 "medium"] 50
  /\ find_matches_brute_force [mkDriver 1 0 0]
       [mkPackage 7 30 0 "high"; mkPackage 8 90 0 "high"] 50
     = find_matches_brute_force [mkDriver 1 0 0]
         [mkPackage 7 30 0 "low"; mkPackage 8 90 0 "medium"] 50.
Proof.
  apply (priority_not_read [mkDriver 1 0 0]).
  repeat constructor.
Defined.

(** * Further properties *)

(** ** MockRedis *)

Lemma get_set_live now now' name value ex cache :
  ex <= 0 \/ (now' <= now + inject_Z ex)%Q ->
  MockRedis.get now' name (MockRedis.set now name value ex cache)
  = (Some value, MockRedis.set now name value ex cache).
Proof.
  intros Hlive. unfold MockRedis.get, MockRedis.set.
  rewrite lookup_insert_eq.
  destruct (Z.ltb_spec 0 ex) as [Hex|Hex].
  - destruct Hlive as [?|Hle]; [lia|].
    rewrite (proj2 (Qltb_ge _ _) Hle). by rewrite andb_false_r.
  - reflexivity.
Qed.

Lemma get_answer_lookup now name (cache cache' : gmap string (string * Q)) :
  cache !! name = cache' !! name ->
  (MockRedis.get now name cache).1 = (MockRedis.get now name cache').1.
Proof.
  intros E. unfold MockRedis.get. rewrite E.
  destruct (cache' !! name) as [[value expiry]|]; [|done].
  by destruct (negb (Qeq_bool expiry 0) && Qltb expiry now).
Qed.

Lemma get_lookup_other now name other (cache : gmap string (string * Q)) :
  other <> name -> (MockRedis.get now name cache).2 !! other = cache !! other.
Proof.
  intros Hne. unfold MockRedis.get.
  destruct (cache !! name) as [[value expiry]|]; [|done].
  destruct (negb (Qeq_bool expiry 0) && Qltb expiry now); [|done].
  simpl. by rewrite lookup_delete_ne.
Qed.

Lemma set_lookup_other now name other value ex
    (cache : gmap string (string * Q)) :
  other <> name ->
  MockRedis.set now name value ex cache !! other = cache !! other.
Proof. intros Hne. unfold MockRedis.set. by rewrite lookup_insert_ne. Qed.

(** X1.  A value stored with a positive [ex] is returned by every [get]
    whose clock reading is not past the expiry time [now + ex]; a value
    stored with [ex <= 0] is returned whatever the clock says.  The store is
    not changed by such a [get]. *)
Theorem redis_get_after_set_live now now' name value ex cache :
  ex <= 0 \/ (now' <= now + inject_Z ex)%Q ->
  MockRedis.get now' name (MockRedis.set now name value ex cache)
  = (Some value, MockRedis.set now name value ex cache).
Proof. apply get_set_live. Qed.

Lemma redis_get_after_set_live_witness :
  (60 <= 0 \/ (1030 <= 1000 + inject_Z 60)%Q)
  /\ MockRedis.get 1030 "k" (MockRedis.set 1000 "k" "v" 60 ∅)
     = (Some "v", MockRedis.set 1000 "k" "v" 60 ∅).
Proof.
  split; [right; done|].
  apply (redis_get_after_set_live 1000 1030 "k" "v" 60 ∅). right. done.
Defined.

(** X3.  [get] never adds or changes an entry: the keys after the call
    are keys before it, every other key keeps its entry, and a missing key
    answers [None] without touching the store. *)
Theorem redis_get_only_removes now name cache :
  (forall other,
     other <> name ->
     (MockRedis.get now name cache).2 !! other = cache !! other)
  /\ ((MockRedis.get now name cache).2 !! name = None
      \/ (MockRedis.get now name cache).2 !! name = cache !! name)
  /\ dom (MockRedis.get now name cache).2 ⊆ dom cache
  /\ (cache !! name = None -> MockRedis.get now name cache = (None, cache)).
Proof.
  split; [intros other Hne; by apply get_lookup_other|].
  unfold MockRedis.get.
  destruct (cache !! name) as [[value expiry]|] eqn:E.
  - destruct (negb (Qeq_bool expiry 0) && Qltb expiry now); simpl.
    + split; [left; apply lookup_delete_eq|].
      split; [|done]. rewrite dom_delete. apply subseteq_difference_l. done.
    + split; [by right|]. split; done.
  - simpl. split; [by left|]. split; done.
Qed.

(** X4.  Asking twice at the same clock reading gives the same answer and
    the same store as asking once. *)
Theorem redis_get_idempotent now name cache :
  MockRedis.get now name (MockRedis.get now name cache).2
  = MockRedis.get now name cache.
Proof.
  unfold MockRedis.get.
  destruct (cache !! name) as [[value expiry]|] eqn:E.
  - destruct (negb (Qeq_bool expiry 0) && Qltb expiry now) eqn:Ex; simpl.
    + by rewrite lookup_delete_eq.
    + by rewrite E, Ex.
  - simpl. by rewrite E.
Qed.

(** X5.  Time only expires entries: if a key answers with a value at
    some clock reading, it answers with the same value at every earlier
    one. *)
Theorem redis_get_earlier now now' name cache value :
  (now <= now')%Q ->
  (MockRedis.get now' name cache).1 = Some value ->
  MockRedis.get now name cache = (Some value, cache).
Proof.
  intros Hle. unfold MockRedis.get.
  destruct (cache !! name) as [[value' expiry]|] eqn:E; [|done].
  destruct (Qeq_bool expiry 0); simpl.
  - by intros [= ->].
  - destruct (Qltb expiry now') eqn:E'; [done|]. intros [= ->].
    apply Qltb_ge in E'.
    assert (Qltb expiry now = false) as ->; [|done].
    apply Qltb_ge. by apply Qle_trans with now'.
Qed.

Lemma redis_get_earlier_witness :
  (1010 <= 1030)%Q
  /\ MockRedis.get 1010 "k" (MockRedis.set 1000 "k" "v" 60 ∅)
     = (Some "v", MockRedis.set 1000 "k" "v" 60 ∅).
Proof.
  split; [done|].
  apply (redis_get_earlier 1010 1030 "k" _ "v"); done.
Defined.

(** X6.  Entries of different keys do not interfere: storing under one
    key does not change what [get] answers for another. *)
Theorem redis_set_other_key now now' name name' value ex cache :
  name <> name' ->
  (MockRedis.get now' name' (MockRedis.set now name value ex cache)).1
  = (MockRedis.get now' name' cache).1.
Proof.
  intros Hne. apply get_answer_lookup. by apply set_lookup_other.
Qed.

Lemma redis_set_other_key_witness :
  "a" <> "b"
  /\ (MockRedis.get 5 "b" (MockRedis.set 1 "a" "v" 60 {["b" := ("w", 0%Q)]})).1
     = (MockRedis.get 5 "b" {["b" := ("w", 0%Q)]}).1.
Proof.
  split; [done|].
  apply (redis_set_other_key 1 5 "a" "b" "v" 60). done.
Defined.

(** ** cache_response *)

Section CacheResponse.
Context {Args V : Type}.
Variable dumps_args : Args -> string.
Variable dumps : V -> string.
Variable loads : string -> V.
Variable ttl_seconds : Z.
Variable func_name : string.
Variable func : Args -> V.

Lemma truthy_Some (s : string) : s <> EmptyString -> truthy (Some s) = true.
Proof. by destruct s. Qed.

Lemma cache_response_miss t_get t_set args cache calls :
  truthy (MockRedis.get t_get (cache_key func_name (dumps_args args)) cache).1
  = false ->
  cache_response dumps_args dumps loads ttl_seconds func_name func
    t_get t_set args (cache, calls)
  = (func args,
     (MockRedis.set t_set (cache_key func_name (dumps_args args))
        (dumps (func args)) ttl_seconds
        (MockRedis.get t_get (cache_key func_name (dumps_args args)) cache).2,
      S calls)).
Proof.
  intros Hmiss. unfold cache_response.
  destruct (MockRedis.get t_get (cache_key func_name (dumps_args args)) cache)
    as [cached_value cache'].
  simpl in Hmiss. by rewrite Hmiss.
Qed.

Lemma cache_response_hit t_get t_set args cache calls s :
  s <> EmptyString ->
  MockRedis.get t_get (cache_key func_name (dumps_args args)) cache
  = (Some s, cache) ->
  cache_response dumps_args dumps loads ttl_seconds func_name func
    t_get t_set args (cache, calls)
  = (loads s, (cache, calls)).
Proof.
  intros Hs Hget. unfold cache_response. rewrite Hget.
  by rewrite truthy_Some.
Qed.

Lemma cache_key_inj name k1 k2 : cache_key name k1 = cache_key name k2 -> k1 = k2.
Proof.
  unfold cache_key. intros E.
  induction name as [|c name IH]; simpl in E.
  - by injection E.
  - injection E as E. by apply IH.
Qed.
End CacheResponse.

(** X7.  After a call that misses, a call with the same arguments hits
    as long as the entry is live (the clock inside its [get] is not past the
    time of storing plus [ttl_seconds], or [ttl_seconds <= 0], which stores
    without expiry): it returns the decoded stored text
    [loads (dumps (func args))], does not run [func] and leaves the store as
    it is.  The first call returns [func args] and runs [func] once. *)
Theorem cache_response_second_call_hits {Args V : Type}
    (dumps_args : Args -> string) (dumps : V -> string) (loads : string -> V)
    (ttl_seconds : Z) (func_name : string) (func : Args -> V)
    (t1 t2 t3 t4 : Q) (args : Args) cache calls :
  truthy (MockRedis.get t1 (cache_key func_name (dumps_args args)) cache).1
  = false ->
  dumps (func args) <> EmptyString ->
  ttl_seconds <= 0 \/ (t3 <= t2 + inject_Z ttl_seconds)%Q ->
  exists cache',
    cache_response dumps_args dumps loads ttl_seconds func_name func
      t1 t2 args (cache, calls)
    = (func args, (cache', S calls))
    /\ cache_response dumps_args dumps loads ttl_seconds func_name func
         t3 t4 args (cache', S calls)
       = (loads (dumps (func args)), (cache', S calls)).
Proof.
  intros Hmiss Hne Hlive. eexists. split.
  - by apply cache_response_miss.
  - apply cache_response_hit; [done|]. by apply get_set_live.
Qed.

Lemma cache_response_second_call_hits_witness :
  exists cache',
    cache_response (fun b : bool => if b then "[true]" else "[false]")
      (fun n : bool => if n then "true" else "false")
      (fun s => String.eqb s "true") 60 "get_routes" negb
      1000 1001 true (∅, 0%nat)
    = (false, (cache', 1%nat))
    /\ cache_response (fun b : bool => if b then "[true]" else "[false]")
         (fun n : bool => if n then "true" else "false")
         (fun s => String.eqb s "true") 60 "get_routes" negb
         1030 1031 true (cache', 1%nat)
       = (false, (cache', 1%nat)).
Proof.
  apply (cache_response_second_call_hits
           (fun b : bool => if b then "[true]" else "[false]")
           (fun n : bool => if n then "true" else "false")
           (fun s => String.eqb s "true") 60 "get_routes" negb
           1000 1001 1030 1031 true ∅ 0%nat).
  - reflexivity.
  - done.
  - right. done.
Defined.

(** X9.  Calls with arguments that serialise differently use different
    keys: whatever a call for one argument list did to the store, a call for
    another argument list that would have missed before still misses, runs
    [func] and returns its fresh result. *)
Theorem cache_response_keys_separate {Args V : Type}
    (dumps_args : Args -> string) (dumps : V -> string) (loads : string -> V)
    (ttl_seconds : Z) (func_name : string) (func : Args -> V)
    (t1 t2 t3 t4 : Q) (args args' : Args) cache calls :
  dumps_args args <> dumps_args args' ->
  truthy (MockRedis.get t3 (cache_key func_name (dumps_args args')) cache).1
  = false ->
  exists r1 cache1 calls1 cache2,
    cache_response dumps_args dumps loads ttl_seconds func_name func
      t1 t2 args (cache, calls)
    = (r1, (cache1, calls1))
    /\ cache_response dumps_args dumps loads ttl_seconds func_name func
         t3 t4 args' (cache1, calls1)
       = (func args', (cache2, S calls1)).
Proof.
  intros Hne Hmiss.
  assert (cache_key func_name (dumps_args args')
          <> cache_key func_name (dumps_args args)) as Hkey
    by (intros E; by apply cache_key_inj in E).
  destruct (cache_response dumps_args dumps loads ttl_seconds func_name func
              t1 t2 args (cache, calls)) as [r1 [cache1 calls1]] eqn:Hcall.
  exists r1, cache1, calls1. eexists. split; [done|].
  apply cache_response_miss. rewrite <- Hmiss. f_equal.
  apply get_answer_lookup.
  unfold cache_response in Hcall.
  destruct (MockRedis.get t1 (cache_key func_name (dumps_args args)) cache)
    as [cached_value cache0] eqn:Hget1.
  assert (cache0 !! cache_key func_name (dumps_args args')
          = cache !! cache_key func_name (dumps_args args')) as E0.
  { pose proof (get_lookup_other t1 _ _ cache Hkey) as E.
    by rewrite Hget1 in E. }
  destruct (truthy cached_value); injection Hcall as _ <- _.
  - done.
  - by rewrite set_lookup_other.
Qed.

Lemma cache_response_keys_separate_witness :
  exists r1 cache1 calls1 cache2,
    cache_response (fun b : bool => if b then "[true]" else "[false]")
      (fun n : bool => if n then "true" else "false")
      (fun s => String.eqb s "true") 60 "get_routes" negb
      1000 1001 true (∅, 0%nat)
    = (r1, (cache1, calls1))
    /\ cache_response (fun b : bool => if b then "[true]" else "[false]")
         (fun n : bool => if n then "true" else "false")
         (fun s => String.eqb s "true") 60 "get_routes" negb
         1002 1003 false (cache1, calls1)
       = (true, (cache2, S calls1)).
Proof.
  apply (cache_response_keys_separate
           (fun b : bool => if b then "[true]" else "[false]")
           (fun n : bool => if n then "true" else "false")
           (fun s => String.eqb s "true") 60 "get_routes" negb
           1000 1001 1002 1003 true false ∅ 0%nat); done.
Defined.

(** ** The matchers *)

Lemma find_matches_optimized_Ok drivers packages max_distance matches :
  find_matches_optimized drivers packages max_distance = Ok matches ->
  matches
  = grid_order_matches (py_int max_distance) max_distance drivers packages.
Proof.
  rewrite find_matches_optimized_spec.
  destruct (decide _); [done|]. by intros [= <-].
Qed.

Lemma grid_order_matches_app cell_size max_distance ds1 ds2 packages :
  grid_order_matches cell_size max_distance (ds1 ++ ds2) packages
  = grid_order_matches cell_size max_distance ds1 packages
    ++ grid_order_matches cell_size max_distance ds2 packages.
Proof. unfold grid_order_matches. apply flat_map_app. Qed.

Lemma input_order_matches_app max_distance ds1 ds2 packages :
  input_order_matches max_distance (ds1 ++ ds2) packages
  = input_order_matches max_distance ds1 packages
    ++ input_order_matches max_distance ds2 packages.
Proof. unfold input_order_matches. apply flat_map_app. Qed.

(** X14.  Both matchers treat the drivers one batch after the other:
    running on [ds1 ++ ds2] is running on [ds1], then on [ds2], and
    appending the two lists; an exception of either part is the exception
    of the whole. *)
Theorem matchers_split_drivers ds1 ds2 packages max_distance :
  find_matches_optimized (ds1 ++ ds2) packages max_distance
  = (m1 ← find_matches_optimized ds1 packages max_distance;
     m2 ← find_matches_optimized ds2 packages max_distance;
     Ok (m1 ++ m2))
  /\ find_matches_brute_force (ds1 ++ ds2) packages max_distance
     = (m1 ← find_matches_brute_force ds1 packages max_distance;
        m2 ← find_matches_brute_force ds2 packages max_distance;
        Ok (m1 ++ m2)).
Proof.
  split.
  - rewrite !find_matches_optimized_spec, grid_order_matches_app.
    assert (ds1 ++ ds2 <> [] <-> ds1 <> [] \/ ds2 <> []) as Happ.
    { destruct ds1, ds2; simpl; split; try done; try tauto; eauto. }
    destruct (decide (py_int max_distance = 0
                      /\ (packages <> [] \/ ds1 ++ ds2 <> []))) as [HA|HA],
             (decide (py_int max_distance = 0
                      /\ (packages <> [] \/ ds1 <> []))) as [HB|HB],
             (decide (py_int max_distance = 0
                      /\ (packages <> [] \/ ds2 <> []))) as [HC|HC];
      try reflexivity; exfalso; tauto.
  - rewrite !find_matches_brute_force_spec.
    do 2 (change (Ok ?a ≫= ?k) with (k a); cbv beta).
    by rewrite input_order_matches_app.
Qed.





Lemma flat_map_sublist {A B : Type} (f g : A -> list B) (l : list A) :
  (forall a, f a `sublist_of` g a) -> flat_map f l `sublist_of` flat_map g l.
Proof.
  intros Hfg. induction l as [|a l IH]; [done|]. simpl.
  by apply sublist_app.
Qed.

(** X17.  Empty inputs.  The brute-force matcher returns the empty list
    when either list is empty.  The grid matcher does so only when it
    divides by no zero cell size: with cell size 0 it raises
    [ZeroDivisionError] as soon as one package or one driver is present, also
    when the other list is empty. *)
Theorem empty_inputs drivers packages max_distance :
  find_matches_brute_force drivers [] max_distance = Ok []
  /\ find_matches_brute_force [] packages max_distance = Ok []
  /\ find_matches_optimized drivers [] max_distance
     = (if decide (py_int max_distance = 0 /\ drivers <> [])
        then Raise ZeroDivisionError else Ok [])
  /\ find_matches_optimized [] packages max_distance
     = (if decide (py_int max_distance = 0 /\ packages <> [])
        then Raise ZeroDivisionError else Ok []).
Proof.
  rewrite !find_matches_brute_force_spec, !find_matches_optimized_spec.
  split; [|split; [|split]].
  - f_equal. unfold input_order_matches. by apply flat_map_all_nil.
  - reflexivity.
  - destruct (decide (py_int max_distance = 0 /\ drivers <> [])) as [[? ?]|Hn].
    + by rewrite decide_True by (split; [done|by right]).
    + rewrite decide_False by (intros [? [?|?]]; [done|by apply Hn]).
      f_equal. unfold grid_order_matches.
      apply flat_map_all_nil. intros driver. by apply flat_map_all_nil.
  - destruct (decide (py_int max_distance = 0 /\ packages <> [])) as [[? ?]|Hn].
    + by rewrite decide_True by (split; [done|by left]).
    + by rewrite decide_False by (intros [? [?|?]]; [by apply Hn|done]).
Qed.

(** X18.  Why nine cells are enough.  When the cell size
    [int(max_distance)] is not 0, a package inside the bounding box of a
    driver ([|dx| <= max_distance] and [|dy| <= max_distance]) has its cell
    among the nine cells around the driver's cell, although the cell size
    can be smaller than [max_distance] (50 for 50.5): the coordinates are
    whole numbers. *)
Theorem three_by_three_suffices max_distance driver pkg :
  py_int max_distance <> 0 ->
  (inject_Z (Z.abs (d_x driver - p_x pkg)) <= max_distance)%Q ->
  (inject_Z (Z.abs (d_y driver - p_y pkg)) <= max_distance)%Q ->
  exists i j,
    -1 <= i <= 1 /\ -1 <= j <= 1
    /\ get_grid_key (p_x pkg) (p_y pkg) (py_int max_distance)
       = (key ← get_grid_key (d_x driver) (d_y driver) (py_int max_distance);
          Ok (key.1 + i, key.2 + j)).
Proof.
  intros Hnz Hx Hy.
  destruct (py_int_nonzero_bound _ _ Hnz Hx) as [Hc Hbx].
  destruct (py_int_nonzero_bound _ _ Hnz Hy) as [_ Hby].
  rewrite !get_grid_key_nonzero by done.
  change (Ok ?a ≫= ?k) with (k a). cbv beta. unfold cell_key. simpl.
  exists (p_x pkg / py_int max_distance - d_x driver / py_int max_distance),
         (p_y pkg / py_int max_distance - d_y driver / py_int max_distance).
  pose proof (floordiv_close (py_int max_distance) (d_x driver) (p_x pkg)
                Hc ltac:(lia)).
  pose proof (floordiv_close (py_int max_distance) (d_y driver) (p_y pkg)
                Hc ltac:(lia)).
  split; [lia|]. split; [lia|]. f_equal. f_equal; lia.
Qed.

Lemma three_by_three_suffices_witness :
  exists i j,
    -1 <= i <= 1 /\ -1 <= j <= 1
    /\ get_grid_key 100 (-1) (py_int (101 # 2))
       = (key ← get_grid_key 50 49 (py_int (101 # 2));
          Ok (key.1 + i, key.2 + j)).
Proof.
  apply (three_by_three_suffices (101 # 2) (mkDriver 1 50 49)
           (mkPackage 7 100 (-1) "high")); done.
Defined.

Lemma NoDup_fmap_filter {A B : Type} (f : A -> B) (P : A -> Prop)
    `{forall a, Decision (P a)} (l : list A) :
  NoDup (map f l) -> NoDup (map f (filter P l)).
Proof.
  intros Hnd. eapply sublist_NoDup; [exact Hnd|].
  apply fmap_sublist, sublist_filter.
Qed.

Lemma selected_pairs_NoDup (sel : Driver -> Package -> Prop)
    `{forall d p, Decision (sel d p)} drivers packages :
  NoDup (map d_id drivers) -> NoDup (map p_id packages) ->
  NoDup (map id_pair
           (flat_map (fun d => map (match_of d) (filter (sel d) packages))
              drivers)).
Proof.
  intros Hd Hp. induction drivers as [|d drivers IH]; simpl; [constructor|].
  apply NoDup_cons in Hd as [Hd Hds]. rewrite map_app.
  apply NoDup_app. split; [|split].
  - rewrite map_map. simpl.
    change (map (fun x => id_pair (match_of d x)) (filter (sel d) packages))
      with (map (fun x => (d_id d, p_id x)) (filter (sel d) packages)).
    rewrite <- (map_map p_id (pair (d_id d))).
    apply (NoDup_fmap_2 (pair (d_id d))). by apply NoDup_fmap_filter.
  - intros pr Hin1 Hin2.
    apply list_elem_of_fmap in Hin1 as (r1 & -> & Hr1).
    apply list_elem_of_fmap in Hr1 as (p1 & -> & _).
    apply list_elem_of_fmap in Hin2 as (r2 & E & Hr2).
    apply list_elem_of_In, in_flat_map in Hr2 as (d2 & Hd2 & Hr2).
    apply list_elem_of_In in Hd2, Hr2.
    apply list_elem_of_fmap in Hr2 as (p2 & -> & _).
    injection E as E1 _. apply Hd. rewrite E1.
    by apply list_elem_of_fmap_2.
  - by apply IH.
Qed.

Lemma grid_order_matches_selected cell_size max_distance drivers packages :
  grid_order_matches cell_size max_distance drivers packages
  ≡ₚ flat_map
       (fun d =>
          map (match_of d)
            (filter
               (fun pkg =>
                  accepts max_distance d pkg = true
                  /\ package_key cell_size pkg
                     ∈ neighbor_keys (driver_key cell_size d))
               packages))
       drivers.
Proof.
  unfold grid_order_matches. apply flat_map_Permutation. intros d _.
  unfold matches_among.
  rewrite (flat_map_fmap (match_of d)
    (fun key =>
       filter (fun pkg => accepts max_distance d pkg = true)
         (bucket cell_size packages key))).
  apply Permutation_map. unfold bucket.
  apply (scan_buckets_perm (package_key cell_size)), neighbor_keys_NoDup.
Qed.

(** X19.  When the drivers have pairwise distinct ids and so have the
    packages, no matcher reports a pair of ids twice. *)
Theorem no_pair_twice drivers packages max_distance :
  NoDup (map d_id drivers) -> NoDup (map p_id packages) ->
  (forall matches,
     find_matches_optimized drivers packages max_distance = Ok matches ->
     NoDup (map (fun r => (driver_id r, package_id r)) matches))
  /\ (forall matches,
        find_matches_brute_force drivers packages max_distance = Ok matches ->
        NoDup (map (fun r => (driver_id r, package_id r)) matches)).
Proof.
  intros Hd Hp. split; intros matches Hrun.
  - apply find_matches_optimized_Ok in Hrun. subst matches.
    change (fun r => (driver_id r, package_id r)) with id_pair.
    rewrite grid_order_matches_selected. by apply selected_pairs_NoDup.
  - rewrite find_matches_brute_force_spec in Hrun. injection Hrun as <-.
    change (fun r => (driver_id r, package_id r)) with id_pair.
    unfold input_order_matches, matches_among.
    by apply (selected_pairs_NoDup
                (fun d pkg => brute_accepts max_distance d pkg = true)).
Qed.

Lemma no_pair_twice_witness :
  NoDup (map (fun r => (driver_id r, package_id r))
           [mkMatchResult 1 7 (mkSurd 900); mkMatchResult 2 7 (mkSurd 400)]).
Proof.
  apply (no_pair_twice [mkDriver 1 0 0; mkDriver 2 10 0]
           [mkPackage 7 30 0 "high"; mkPackage 8 90 0 "low"] 50).
  - simpl. repeat (apply NoDup_cons_2;
      [rewrite ?not_elem_of_cons; repeat split;
       (done || apply not_elem_of_nil)|]).
    apply NoDup_nil_2.
  - simpl. repeat (apply NoDup_cons_2;
      [rewrite ?not_elem_of_cons; repeat split;
       (done || apply not_elem_of_nil)|]).
    apply NoDup_nil_2.
  - reflexivity.
Defined.

(** ** The loop of analyze *)

Section LogLoop.
Variable parse_float : string -> option Q.
Variable parse_int : string -> option Z.

Lemma try_body_error st row :
  (Logs.try_body parse_float parse_int st row).2
  = row_error parse_float parse_int row.
Proof.
  unfold Logs.try_body, row_error.
  destruct (Logs.read_fields parse_float parse_int row)
    as [[[[[endpoint resp] queries] status] ts]|e]; [|done].
  destruct (decide (endpoint = Some "/api/routes")); [|done].
  by destruct (Logs.hour_of parse_int ts).
Qed.

Lemma try_body_count st row :
  Logs.count (Logs.try_body parse_float parse_int st row).1 = Logs.count st.
Proof.
  unfold Logs.try_body.
  destruct (Logs.read_fields parse_float parse_int row)
    as [[[[[endpoint resp] queries] status] ts]|e]; [|done].
  destruct (decide (endpoint = Some "/api/routes")).
  - destruct (Logs.hour_of parse_int ts); simpl; [|done].
    by destruct (400 <=? status).
  - simpl. by destruct (400 <=? status).
Qed.

Lemma try_body_endpoint_stats st row :
  Logs.endpoint_stats (Logs.try_body parse_float parse_int st row).1
  = stats_step parse_float parse_int (Logs.endpoint_stats st) row.
Proof.
  unfold Logs.try_body, stats_step.
  destruct (Logs.read_fields parse_float parse_int row)
    as [[[[[endpoint resp] queries] status] ts]|e]; [|done].
  destruct (decide (endpoint = Some "/api/routes")).
  - destruct (Logs.hour_of parse_int ts); simpl; [|done].
    by destruct (400 <=? status).
  - simpl. by destruct (400 <=? status).
Qed.

Lemma try_body_error_rows st row :
  Logs.error_rows (Logs.try_body parse_float parse_int st row).1
  = if is_error_row parse_float parse_int row
    then Logs.error_rows st ++ [row] else Logs.error_rows st.
Proof.
  unfold Logs.try_body, is_error_row, row_error.
  destruct (Logs.read_fields parse_float parse_int row)
    as [[[[[endpoint resp] queries] status] ts]|e]; [|done].
  destruct (decide (endpoint = Some "/api/routes")).
  - destruct (Logs.hour_of parse_int ts); simpl; [|done].
    by destruct (400 <=? status).
  - simpl. by destruct (400 <=? status).
Qed.

Lemma try_body_hourly st row :
  Logs.hourly_routes (Logs.try_body parse_float parse_int st row).1
  = Logs.hourly_routes st
  \/ exists hour resp_time queries status,
       Logs.hourly_routes (Logs.try_body parse_float parse_int st row).1
       = Logs.hourly_update hour (Logs.stats_append resp_time queries status)
           (Logs.hourly_routes st).
Proof.
  unfold Logs.try_body.
  destruct (Logs.read_fields parse_float parse_int row)
    as [[[[[endpoint resp] queries] status] ts]|e]; [|by left].
  destruct (decide (endpoint = Some "/api/routes")).
  - destruct (Logs.hour_of parse_int ts) as [hour|]; simpl; [|by left].
    right. exists hour, resp, queries, status. by destruct (400 <=? status).
  - left. simpl. by destruct (400 <=? status).
Qed.

Lemma process_row_cases st row :
  Logs.process_row parse_float parse_int st row
  = if escapes (row_error parse_float parse_int row)
    then match row_error parse_float parse_int row with
         | Some e => Logs.Throw e
         | None => Logs.Return st
         end
    else Logs.Return
           (Logs.try_body parse_float parse_int
              (Logs.mkLoopState (Logs.endpoint_stats st)
                 (Logs.hourly_routes st) (Logs.error_rows st)
                 (S (Logs.count st)))
              row).1.
Proof.
  unfold Logs.process_row.
  rewrite <- (try_body_error
                (Logs.mkLoopState (Logs.endpoint_stats st)
                   (Logs.hourly_routes st) (Logs.error_rows st)
                   (S (Logs.count st))) row).
  destruct (Logs.try_body parse_float parse_int _ row) as [st' [[]|]];
    reflexivity.
Qed.

(** An invariant of the loop: a property of the state that every turn
    that goes on keeps holds at the end. *)
Lemma analyze_loop_invariant (Inv : Logs.LoopState -> Prop) rows st st' :
  (forall st row,
     Inv st ->
     Inv (Logs.try_body parse_float parse_int
            (Logs.mkLoopState (Logs.endpoint_stats st) (Logs.hourly_routes st)
               (Logs.error_rows st) (S (Logs.count st)))
            row).1) ->
  Inv st ->
  Logs.analyze_loop parse_float parse_int rows st = Logs.Return st' ->
  Inv st'.
Proof.
  intros Hstep. revert st.
  induction rows as [|row rows IH]; intros st Hst; simpl.
  - by intros [= <-].
  - rewrite process_row_cases.
    destruct (escapes (row_error parse_float parse_int row)) eqn:E.
    + destruct (row_error parse_float parse_int row); simpl in *; congruence.
    + change (Logs.Return ?a ≫= ?k) with (k a). cbv beta.
      apply IH. by apply Hstep.
Qed.

Lemma analyze_loop_completes rows st :
  (exists st', Logs.analyze_loop parse_float parse_int rows st = Logs.Return st')
  <-> Forall (fun row => escapes (row_error parse_float parse_int row) = false)
        rows.
Proof.
  revert st. induction rows as [|row rows IH]; intros st; simpl.
  - split; [constructor|by eexists].
  - rewrite Forall_cons, process_row_cases.
    destruct (escapes (row_error parse_float parse_int row)) eqn:E.
    + split; [|by intros [? _]].
      intros [st' Hst'].
      destruct (row_error parse_float parse_int row); simpl in *; congruence.
    + change (Logs.Return ?a ≫= ?k) with (k a). cbv beta.
      rewrite IH. tauto.
Qed.

(** The state at the end, field by field. *)
Lemma analyze_loop_fields rows st st' :
  Logs.analyze_loop parse_float parse_int rows st = Logs.Return st' ->
  Logs.count st' = (Logs.count st + length rows)%nat
  /\ Logs.endpoint_stats st'
     = fold_left (stats_step parse_float parse_int) rows (Logs.endpoint_stats st)
  /\ Logs.error_rows st'
     = Logs.error_rows st ++ filter (is_error_row parse_float parse_int) rows.
Proof.
  revert st. induction rows as [|row rows IH]; intros st; simpl.
  - intros [= <-]. rewrite filter_nil, app_nil_r. split; [lia|done].
  - rewrite process_row_cases.
    destruct (escapes (row_error parse_float parse_int row)) eqn:E;
      [destruct (row_error parse_float parse_int row); simpl in *; congruence|].
    change (Logs.Return ?a ≫= ?k) with (k a). cbv beta.
    intros Hrun. apply IH in Hrun as (Hc & He & Hr).
    rewrite try_body_count in Hc. rewrite try_body_endpoint_stats in He.
    rewrite try_body_error_rows in Hr. simpl in Hc, He, Hr.
    split; [lia|]. split; [done|]. rewrite Hr, filter_cons.
    destruct (is_error_row parse_float parse_int row); simpl.
    + by rewrite <- app_assoc.
    + done.
Qed.

End LogLoop.

Lemma stats_append_ok resp_time queries status s :
  stats_ok s \/ s = Logs.empty_stats ->
  stats_ok (Logs.stats_append resp_time queries status s).
Proof.
  unfold stats_ok, Logs.stats_append. simpl. rewrite !length_app. simpl.
  intros [(Hq & Hs & _)| ->].
  - split; [lia|]. split; [lia|]. by destruct (Logs.response_times s).
  - simpl. done.
Qed.

Lemma hourly_update_entries hour f h :
  (forall s, stats_ok s \/ s = Logs.empty_stats -> stats_ok (f s)) ->
  Forall (fun entry => stats_ok entry.2) h ->
  Forall (fun entry => stats_ok entry.2) (Logs.hourly_update hour f h).
Proof.
  intros Hf. induction 1 as [|[k s] h Hs Hh IH]; simpl.
  - constructor; [|constructor]. simpl. apply Hf. by right.
  - destruct (k =? hour).
    + constructor; [|done]. simpl. apply Hf. by left.
    + by constructor.
Qed.

Lemma hourly_update_keys hour f h :
  map fst (Logs.hourly_update hour f h)
  = if decide (hour ∈ map fst h) then map fst h else map fst h ++ [hour].
Proof.
  induction h as [|[k s] h IH].
  - cbn [Logs.hourly_update map fst app].
    by rewrite decide_False by apply not_elem_of_nil.
  - cbn [Logs.hourly_update map fst].
    destruct (Z.eqb_spec k hour) as [->|Hne]; cbn [map fst].
    + by rewrite decide_True by left.
    + rewrite IH. destruct (decide (hour ∈ map fst h)) as [Hin|Hout].
      * by rewrite decide_True by (by right).
      * rewrite decide_False; [done|].
        rewrite elem_of_cons. intros [?|?]; [by subst|done].
Qed.

Lemma hourly_update_NoDup hour f h :
  NoDup (map fst h) -> NoDup (map fst (Logs.hourly_update hour f h)).
Proof.
  intros Hnd. rewrite hourly_update_keys.
  destruct (decide (hour ∈ map fst h)) as [|Hout]; [done|].
  apply NoDup_app. split; [done|]. split.
  - intros k Hk Hk'. apply list_elem_of_singleton in Hk'. by subst.
  - apply NoDup_singleton.
Qed.

Section LogLoopInvariant.
Variable parse_float : string -> option Q.
Variable parse_int : string -> option Z.

Lemma stats_step_ok m row :
  (forall endpoint s, m !! endpoint = Some s -> stats_ok s) ->
  forall endpoint s,
    stats_step parse_float parse_int m row !! endpoint = Some s -> stats_ok s.
Proof.
  intros Hm endpoint s. unfold stats_step.
  destruct (Logs.read_fields parse_float parse_int row)
    as [[[[[e resp] queries] status] ts]|]; [|apply Hm].
  destruct (decide (e = endpoint)) as [->|Hne].
  - rewrite lookup_insert_eq. intros [= <-]. apply stats_append_ok.
    destruct (m !! endpoint) as [s'|] eqn:E; simpl; [left|by right].
    by apply (Hm endpoint).
  - rewrite lookup_insert_ne by done. apply Hm.
Qed.

Lemma try_body_state_ok st row :
  state_ok st ->
  state_ok (Logs.try_body parse_float parse_int
              (Logs.mkLoopState (Logs.endpoint_stats st) (Logs.hourly_routes st)
                 (Logs.error_rows st) (S (Logs.count st)))
              row).1.
Proof.
  intros (Hm & Hh & Hnd). unfold state_ok.
  rewrite try_body_endpoint_stats. simpl.
  split; [by apply stats_step_ok|].
  destruct (try_body_hourly parse_float parse_int
              (Logs.mkLoopState (Logs.endpoint_stats st) (Logs.hourly_routes st)
                 (Logs.error_rows st) (S (Logs.count st))) row)
    as [->|(hour & resp & queries & status & ->)]; simpl.
  - done.
  - split.
    + apply hourly_update_entries; [|done]. apply stats_append_ok.
    + by apply hourly_update_NoDup.
Qed.

Lemma initial_state_ok : state_ok Logs.initial.
Proof.
  split; [|split].
  - intros endpoint s. unfold Logs.initial. simpl. by rewrite lookup_empty.
  - constructor.
  - constructor.
Qed.

Lemma analyze_loop_state_ok rows st :
  Logs.analyze_loop parse_float parse_int rows Logs.initial = Logs.Return st ->
  state_ok st.
Proof.
  apply (analyze_loop_invariant parse_float parse_int state_ok).
  - intros st' row. apply try_body_state_ok.
  - apply initial_state_ok.
Qed.

End LogLoopInvariant.

Lemma stats_ok_mean s :
  stats_ok s ->
  (exists m, statistics_mean (Logs.response_times s) = Ok m)
  /\ (exists m, statistics_mean (map inject_Z (Logs.db_queries s)) = Ok m).
Proof.
  intros (Hq & _ & Hne). split.
  - destruct (Logs.response_times s); [done|]. by eexists.
  - destruct (Logs.db_queries s) as [|q qs].
    + destruct (Logs.response_times s); [done|]. simpl in Hq. lia.
    + by eexists.
Qed.

(** X25.  After a loop that ran to its end, the three lists of every
    endpoint and of every hour have the same length and are not empty, so
    that the [statistics.mean] calls of the summary and of the hourly table
    cannot raise [StatisticsError]; and no hour has two entries. *)
Theorem analyze_loop_entries_complete
    (parse_float : string -> option Q) (parse_int : string -> option Z)
    rows st :
  Logs.analyze_loop parse_float parse_int rows Logs.initial = Logs.Return st ->
  (forall endpoint s,
     Logs.endpoint_stats st !! endpoint = Some s ->
     length (Logs.db_queries s) = length (Logs.response_times s)
     /\ length (Logs.status_codes s) = length (Logs.response_times s)
     /\ (exists m, statistics_mean (Logs.response_times s) = Ok m)
     /\ (exists m, statistics_mean (map inject_Z (Logs.db_queries s)) = Ok m))
  /\ (forall hour s,
        (hour, s) ∈ Logs.hourly_routes st ->
        length (Logs.db_queries s) = length (Logs.response_times s)
        /\ length (Logs.status_codes s) = length (Logs.response_times s)
        /\ (exists m, statistics_mean (Logs.response_times s) = Ok m)
        /\ (exists m, statistics_mean (map inject_Z (Logs.db_queries s)) = Ok m))
  /\ NoDup (map fst (Logs.hourly_routes st)).
Proof.
  intros Hrun. apply analyze_loop_state_ok in Hrun as (Hm & Hh & Hnd).
  split; [|split; [|done]].
  - intros endpoint s Hs. apply Hm in Hs.
    destruct (stats_ok_mean s Hs) as [? ?]. destruct Hs as (? & ? & _). done.
  - intros hour s Hs. rewrite Forall_forall in Hh.
    apply Hh in Hs. simpl in Hs.
    destruct (stats_ok_mean s Hs) as [? ?]. destruct Hs as (? & ? & _). done.
Qed.

Lemma app_cons_not_nil_sym {A : Type} (l : list A) (a : A) : l ++ [a] <> [].
Proof. by destruct l. Qed.

Section LogLoopResult.
Variable parse_float : string -> option Q.
Variable parse_int : string -> option Z.

Lemma contributions_snoc endpoint rows row :
  contributions parse_float parse_int endpoint (rows ++ [row])
  = match Logs.read_fields parse_float parse_int row with
    | Logs.Return (e, resp_time, queries, status, _) =>
        if decide (e = endpoint)
        then Logs.stats_append resp_time queries status
               (contributions parse_float parse_int endpoint rows)
        else contributions parse_float parse_int endpoint rows
    | Logs.Throw _ => contributions parse_float parse_int endpoint rows
    end.
Proof.
  unfold contributions, Logs.stats_append. cbv zeta. rewrite omap_app.
  cbn [omap list_omap].
  destruct (Logs.read_fields parse_float parse_int row)
    as [[[[[e resp] queries] status] ts]|].
  - destruct (decide (e = endpoint)).
    + by rewrite !map_app.
    + by rewrite app_nil_r.
  - by rewrite app_nil_r.
Qed.

Lemma contributions_empty endpoint rows :
  Logs.response_times (contributions parse_float parse_int endpoint rows) = [] ->
  contributions parse_float parse_int endpoint rows = Logs.empty_stats.
Proof.
  unfold contributions. cbv zeta. simpl. intros E.
  apply map_eq_nil in E. by rewrite E.
Qed.

Lemma stats_fold_lookup rows endpoint :
  fold_left (stats_step parse_float parse_int) rows ∅ !! endpoint
  = if decide (Logs.response_times
                 (contributions parse_float parse_int endpoint rows) = [])
    then None
    else Some (contributions parse_float parse_int endpoint rows).
Proof.
  induction rows as [|row rows IH] using rev_ind.
  - simpl. by rewrite lookup_empty.
  - rewrite fold_left_app, contributions_snoc. simpl. unfold stats_step at 1.
    destruct (Logs.read_fields parse_float parse_int row)
      as [[[[[e resp] queries] status] ts]|]; [|done].
    destruct (decide (e = endpoint)) as [->|Hne].
    + rewrite lookup_insert_eq, IH.
      rewrite (decide_False (P := Logs.response_times (Logs.stats_append _ _ _ _) = [])).
      * do 2 f_equal.
        destruct (decide _) as [Hnil|]; [|done]. simpl.
        symmetry. by apply contributions_empty.
      * unfold Logs.stats_append. simpl. apply app_cons_not_nil_sym.
    + by rewrite lookup_insert_ne.
Qed.

End LogLoopResult.

(** X26.  [count] counts every row the reader yields, the skipped ones
    too; [error_rows] holds, in file order, exactly the rows that went
    through the whole [try] body with a status of 400 or more. *)
Theorem analyze_loop_count_and_errors
    (parse_float : string -> option Q) (parse_int : string -> option Z)
    rows st :
  Logs.analyze_loop parse_float parse_int rows Logs.initial = Logs.Return st ->
  Logs.count st = length rows
  /\ Logs.error_rows st = filter (is_error_row parse_float parse_int) rows.
Proof.
  intros Hrun.
  apply analyze_loop_fields in Hrun as (Hc & _ & Hr). simpl in Hc, Hr.
  done.
Qed.

(** X27.  After a loop that ran to its end, the entry of an endpoint
    holds, in file order, the values of exactly the rows with that endpoint
    whose five fields could be read; an endpoint without such a row has no
    entry.  This includes the rows of [/api/routes] whose hour could not be
    read afterwards, which are in no hourly entry and not in [error_rows]. *)
Theorem analyze_loop_endpoint_stats
    (parse_float : string -> option Q) (parse_int : string -> option Z)
    rows st endpoint :
  Logs.analyze_loop parse_float parse_int rows Logs.initial = Logs.Return st ->
  Logs.endpoint_stats st !! endpoint
  = if decide (Logs.response_times
                 (contributions parse_float parse_int endpoint rows) = [])
    then None
    else Some (contributions parse_float parse_int endpoint rows).
Proof.
  intros Hrun.
  apply analyze_loop_fields in Hrun as (_ & He & _). rewrite He.
  apply stats_fold_lookup.
Qed.

Section LogLoopThrow.
Variable parse_float : string -> option Q.
Variable parse_int : string -> option Z.

Lemma analyze_loop_Throw rows st e :
  Logs.analyze_loop parse_float parse_int rows st = Logs.Throw e
  <-> exists pre row post,
        rows = pre ++ row :: post
        /\ Forall (fun r => escapes (row_error parse_float parse_int r) = false)
             pre
        /\ row_error parse_float parse_int row = Some e
        /\ escapes (Some e) = true.
Proof.
  revert st. induction rows as [|row rows IH]; intros st; simpl.
  - split; [done|]. intros (pre & r & post & E & _). by destruct pre.
  - rewrite process_row_cases.
    destruct (escapes (row_error parse_float parse_int row)) eqn:Eesc.
    + destruct (row_error parse_float parse_int row) as [e0|] eqn:Erow;
        [|done].
      simpl. split.
      * intros [= <-]. exists [], row, rows. by repeat split.
      * intros (pre & r & post & E & Hpre & Hr & Hesc).
        destruct pre as [|r0 pre]; simpl in E; injection E as E1 E2; subst.
        -- congruence.
        -- apply Forall_cons in Hpre as [Hr0 _]. rewrite Erow in Hr0.
           congruence.
    + change (Logs.Return ?a ≫= ?k) with (k a). cbv beta. rewrite IH. split.
      * intros (pre & r & post & -> & Hpre & Hr & Hesc).
        exists (row :: pre), r, post. split; [done|]. split; [|done].
        by constructor.
      * intros (pre & r & post & E & Hpre & Hr & Hesc).
        destruct pre as [|r0 pre]; simpl in E; injection E as E1 E2; subst.
        -- rewrite Hr in Eesc. simpl in *. congruence.
        -- apply Forall_cons in Hpre as [_ Hpre]. by exists pre, r, post.
Qed.

End LogLoopThrow.

(** X24.  The loop runs to its end exactly when no row ends the [try]
    body with an exception other than [ValueError] and [KeyError] (those
    rows are skipped); otherwise it stops at the first row with another
    exception ([TypeError], [AttributeError] or [IndexError]) and passes that
    exception on, whatever state it had reached. *)
Theorem analyze_loop_completes_iff
    (parse_float : string -> option Q) (parse_int : string -> option Z)
    rows st :
  ((exists st',
      Logs.analyze_loop parse_float parse_int rows st = Logs.Return st')
   <-> Forall (fun row => escapes (row_error parse_float parse_int row) = false)
         rows)
  /\ (forall e,
        Logs.analyze_loop parse_float parse_int rows st = Logs.Throw e
        <-> exists pre row post,
              rows = pre ++ row :: post
              /\ Forall
                   (fun r =>
                      escapes (row_error parse_float parse_int r) = false)
                   pre
              /\ row_error parse_float parse_int row = Some e
              /\ (e = Logs.TypeError \/ e = Logs.AttributeError
                  \/ e = Logs.IndexError)).
Proof.
  split; [apply analyze_loop_completes|].
  intros e. rewrite analyze_loop_Throw.
  assert (escapes (Some e) = true
          <-> e = Logs.TypeError \/ e = Logs.AttributeError
              \/ e = Logs.IndexError) as Hesc.
  { destruct e; simpl; split; try done; try tauto;
      intros [?|[?|?]]; done. }
  split; intros (pre & row & post & ? & ? & ? & ?);
    exists pre, row, post; repeat split; try done; by apply Hesc.
Qed.

Lemma split_no_separator sep s :
  (forall c, In c (String.list_ascii_of_string s) -> c <> sep) ->
  Logs.split sep s = [s].
Proof.
  induction s as [|c s IH]; intros Hno; simpl; [done|].
  destruct (Ascii.eqb_spec c sep) as [->|Hne].
  - exfalso. apply (Hno sep); [by left|done].
  - rewrite IH; [done|]. intros c' Hc'. apply Hno. by right.
Qed.

(** X30.  A row of [/api/routes] whose five fields can be read but whose
    time stamp contains no blank makes line 59 raise [IndexError], which the
    inner handler does not catch: the loop stops there, whatever rows
    follow. *)
Theorem timestamp_without_blank_stops
    (parse_float : string -> option Q) (parse_int : string -> option Z)
    row rows st resp_time queries status ts :
  Logs.read_fields parse_float parse_int row
  = Logs.Return (Some "/api/routes", resp_time, queries, status, Some ts) ->
  (forall c, In c (String.list_ascii_of_string ts) -> c <> " "%char) ->
  Logs.analyze_loop parse_float parse_int (row :: rows) st
  = Logs.Throw Logs.IndexError.
Proof.
  intros Hread Hts. simpl. rewrite process_row_cases.
  assert (row_error parse_float parse_int row = Some Logs.IndexError) as ->;
    [|done].
  unfold row_error. rewrite Hread. rewrite decide_True by done.
  unfold Logs.hour_of. by rewrite split_no_separator.
Qed.

Lemma split_peak_from h nr nd pr pd :
  fold_left
    (fun '(normal_resp, normal_db, peak_resp, peak_db) '(hour, s) =>
       if (13 <=? hour) && (hour <=? 13) then
         (normal_resp, normal_db,
          peak_resp ++ Logs.response_times s,
          peak_db ++ map inject_Z (Logs.db_queries s))
       else
         (normal_resp ++ Logs.response_times s,
          normal_db ++ map inject_Z (Logs.db_queries s),
          peak_resp, peak_db))
    h (nr, nd, pr, pd)
  = (nr ++ flat_map (fun e => Logs.response_times e.2)
             (filter (fun e => e.1 <> 13) h),
     nd ++ flat_map (fun e => map inject_Z (Logs.db_queries e.2))
             (filter (fun e => e.1 <> 13) h),
     pr ++ flat_map (fun e => Logs.response_times e.2)
             (filter (fun e => e.1 = 13) h),
     pd ++ flat_map (fun e => map inject_Z (Logs.db_queries e.2))
             (filter (fun e => e.1 = 13) h)).
Proof.
  revert nr nd pr pd. induction h as [|[hour s] h IH]; intros nr nd pr pd.
  - simpl. by rewrite !app_nil_r.
  - cbn [fold_left]. rewrite !filter_cons. cbn [fst].
    destruct (decide (hour = 13)) as [->|Hne].
    + rewrite decide_False by tauto. cbn [Z.leb Z.compare Pos.compare
        Pos.compare_cont andb negb].
      rewrite IH. cbn [flat_map snd]. by rewrite <- !app_assoc.
    + rewrite decide_True by done.
      assert ((13 <=? hour) && (hour <=? 13) = false) as ->.
      { apply andb_false_iff. rewrite !Z.leb_gt. lia. }
      rewrite IH. cbn [flat_map snd]. by rewrite <- !app_assoc.
Qed.

Lemma split_peak_spec h :
  Logs.split_peak h
  = (flat_map (fun e => Logs.response_times e.2)
       (filter (fun e => e.1 <> 13) h),
     flat_map (fun e => map inject_Z (Logs.db_queries e.2))
       (filter (fun e => e.1 <> 13) h),
     flat_map (fun e => Logs.response_times e.2)
       (filter (fun e => e.1 = 13) h),
     flat_map (fun e => map inject_Z (Logs.db_queries e.2))
       (filter (fun e => e.1 = 13) h)).
Proof. unfold Logs.split_peak. by rewrite split_peak_from. Qed.

Lemma flat_map_lengths_agree {A : Type} (f g : A -> list Q) (l : list A) :
  Forall (fun a => length (f a) = length (g a)) l ->
  length (flat_map f l) = length (flat_map g l).
Proof.
  induction 1 as [|a l Ha _ IH]; simpl; [done|].
  rewrite !length_app. lia.
Qed.

Lemma filter_absent_key {V : Type} (k : Z) (h : list (Z * V)) :
  k ∉ map fst h -> filter (fun e => e.1 = k) h = [].
Proof.
  induction h as [|[k' v'] h IH]; intros Hk; [done|].
  simpl in Hk. apply not_elem_of_cons in Hk as [Hne Hk].
  rewrite filter_cons_False by (cbn [fst]; congruence). by apply IH.
Qed.

Lemma filter_unique_key {V : Type} (k : Z) (v : V) (h : list (Z * V)) :
  NoDup (map fst h) -> (k, v) ∈ h -> filter (fun e => e.1 = k) h = [(k, v)].
Proof.
  induction h as [|[k' v'] h IH]; intros Hnd Hin; [by apply elem_of_nil in Hin|].
  simpl in Hnd. apply NoDup_cons in Hnd as [Hk' Hnd].
  apply elem_of_cons in Hin as [[= <- <-]|Hin].
  - rewrite filter_cons_True by done. f_equal. by apply filter_absent_key.
  - rewrite filter_cons_False.
    + by apply IH.
    + cbn [fst]. intros ->. apply Hk'.
      by apply (list_elem_of_fmap_2 fst) in Hin.
Qed.

(** X29.  The peak lists are the lists of the entry of hour 13, when
    there is one, and are empty otherwise; the normal lists are the lists of
    all other hours, one after the other in the order in which the hours
    first appeared in the file. *)
Theorem analyze_peak_is_hour_13
    (parse_float : string -> option Q) (parse_int : string -> option Z)
    rows st normal_resp normal_db peak_resp peak_db :
  Logs.analyze_loop parse_float parse_int rows Logs.initial = Logs.Return st ->
  Logs.split_peak (Logs.hourly_routes st)
  = (normal_resp, normal_db, peak_resp, peak_db) ->
  (forall s,
     (13, s) ∈ Logs.hourly_routes st ->
     peak_resp = Logs.response_times s
     /\ peak_db = map inject_Z (Logs.db_queries s))
  /\ (13 ∉ map fst (Logs.hourly_routes st) -> peak_resp = [] /\ peak_db = [])
  /\ normal_resp
     = flat_map (fun e => Logs.response_times e.2)
         (filter (fun e => e.1 <> 13) (Logs.hourly_routes st))
  /\ normal_db
     = flat_map (fun e => map inject_Z (Logs.db_queries e.2))
         (filter (fun e => e.1 <> 13) (Logs.hourly_routes st)).
Proof.
  intros Hrun. apply analyze_loop_state_ok in Hrun as (_ & _ & Hnd).
  rewrite split_peak_spec. intros [= <- <- <- <-].
  split; [|split; [|done]].
  - intros s Hs. rewrite (filter_unique_key 13 s) by done. simpl.
    by rewrite !app_nil_r.
  - intros Hno. by rewrite filter_absent_key.
Qed.

(** ** Examples on the sample rows *)

Lemma analyze_loop_entries_complete_witness :
  NoDup (map fst (Logs.hourly_routes sample_state)).
Proof.
  apply (analyze_loop_entries_complete sample_float sample_int sample_rows
           sample_state).
  vm_compute. reflexivity.
Defined.

Lemma analyze_loop_count_and_errors_witness :
  Logs.count sample_state = length sample_rows
  /\ Logs.error_rows sample_state
     = filter (is_error_row sample_float sample_int) sample_rows.
Proof.
  apply (analyze_loop_count_and_errors sample_float sample_int sample_rows
           sample_state).
  vm_compute. reflexivity.
Defined.

Lemma analyze_loop_endpoint_stats_witness :
  Logs.endpoint_stats sample_state !! Some "/api/routes"
  = if decide (Logs.response_times
                 (contributions sample_float sample_int (Some "/api/routes")
                    sample_rows) = [])
    then None
    else Some (contributions sample_float sample_int (Some "/api/routes")
                 sample_rows).
Proof.
  apply (analyze_loop_endpoint_stats sample_float sample_int sample_rows
           sample_state (Some "/api/routes")).
  vm_compute. reflexivity.
Defined.

Lemma analyze_peak_is_hour_13_witness :
  [120; 200]%Q
  = Logs.response_times (Logs.mkStats [120; 200]%Q [3; 4] [200; 500])
  /\ [3; 4]%Q
     = map inject_Z (Logs.db_queries (Logs.mkStats [120; 200]%Q [3; 4] [200; 500])).
Proof.
  apply (analyze_peak_is_hour_13 sample_float sample_int sample_rows
           sample_state [] [] [120; 200]%Q [3; 4]%Q).
  - vm_compute. reflexivity.
  - vm_compute. reflexivity.
  - apply list_elem_of_In. vm_compute. left. reflexivity.
Defined.

Lemma timestamp_without_blank_stops_witness :
  Logs.analyze_loop sample_float sample_int
    (sample_row "/api/routes" "120" "3" "200" "2024-01-01T13:05:00"
     :: sample_rows) Logs.initial
  = Logs.Throw Logs.IndexError.
Proof.
  apply (timestamp_without_blank_stops sample_float sample_int _ sample_rows
           Logs.initial 120 3 200 "2024-01-01T13:05:00").
  - vm_compute. reflexivity.
  - intros c Hc. vm_compute in Hc.
    repeat (destruct Hc as [<-|Hc]; [done|]). done.
Defined.
(** * The code on floats *)

(** ** The matchers as loops over pairs *)

Lemma for_each_bind_app {A S : Type} (body : S -> A -> result S)
    (l1 l2 : list A) (s : S) :
  for_each body (l1 ++ l2) s = s' ← for_each body l1 s; for_each body l2 s'.
Proof.
  revert s. induction l1 as [|a l1 IH]; intros s; simpl; [done|].
  destruct (body s a); simpl; [apply IH|done].
Qed.

Lemma for_each_flat_map {A B S : Type} (body : S -> B -> result S)
    (f : A -> list B) (l : list A) (s : S) :
  for_each (fun s a => for_each body (f a) s) l s
  = for_each body (flat_map f l) s.
Proof.
  revert s. induction l as [|a l IH]; intros s; simpl; [done|].
  rewrite for_each_bind_app.
  destruct (for_each body (f a) s); simpl; [apply IH|done].
Qed.

Lemma for_each_fmap {A B S : Type} (body : S -> B -> result S) (g : A -> B)
    (l : list A) (s : S) :
  for_each body (map g l) s = for_each (fun s a => body s (g a)) l s.
Proof.
  revert s. induction l as [|a l IH]; intros s; simpl; [done|].
  destruct (body s (g a)); simpl; [apply IH|done].
Qed.

(** A loop whose body appends what [step] returns: when it completes,
    every step returned and the result is the concatenation. *)
Lemma for_each_appending {A B : Type} (step : A -> result (list B))
    (body : list B -> A -> result (list B)) :
  (forall s a, body s a = r ← step a; Ok (s ++ r)) ->
  forall l s out,
    for_each body l s = Ok out ->
    out = s ++ flat_map (fun a => match step a with
                                  | Ok r => r
                                  | Raise _ => []
                                  end) l
    /\ forall a, a ∈ l -> exists r, step a = Ok r.
Proof.
  intros Hbody. induction l as [|a l IH]; intros s out; simpl.
  - intros [= <-]. split; [by rewrite app_nil_r|]. intros a Ha.
    by apply elem_of_nil in Ha.
  - rewrite Hbody. destruct (step a) as [r|e] eqn:E; simpl; [|done].
    intros Hl. apply IH in Hl as [-> Hall]. split.
    + by rewrite app_assoc.
    + intros a' [->|Ha']%elem_of_cons; [by eexists|by apply Hall].
Qed.

Lemma for_each_appending_Ok {A B : Type} (step : A -> result (list B))
    (body : list B -> A -> result (list B)) :
  (forall s a, body s a = r ← step a; Ok (s ++ r)) ->
  forall l s,
    (forall a, a ∈ l -> exists r, step a = Ok r) ->
    exists out, for_each body l s = Ok out.
Proof.
  intros Hbody. induction l as [|a l IH]; intros s Hall; simpl.
  - by eexists.
  - rewrite Hbody. destruct (Hall a) as [r ->]; [by left|]. simpl.
    apply IH. intros a' Ha'. apply Hall. by right.
Qed.

Section FloatMatchers.
Variable float_square : Q -> result Q.
Variable math_sqrt : Z -> result Q.

Lemma fl_check_package_app max_distance driver matches pkg :
  Fl.check_package float_square math_sqrt max_distance driver matches pkg
  = r ← Fl.check_package float_square math_sqrt max_distance driver [] pkg;
    Ok (matches ++ r).
Proof.
  unfold Fl.check_package.
  destruct (in_bounding_box driver pkg max_distance); simpl;
    [|by rewrite app_nil_r].
  destruct (float_square max_distance) as [limit|]; simpl; [|done].
  destruct (Qltb (inject_Z (dist_sq driver pkg)) limit); simpl;
    [|by rewrite app_nil_r].
  by destruct (math_sqrt (dist_sq driver pkg)).
Qed.

Lemma fl_scan_cell cell_size packages max_distance driver key matches :
  (if decide (is_Some (grid_of cell_size packages !! key)) then
     for_each (Fl.check_package float_square math_sqrt max_distance driver)
       (grid_getitem (grid_of cell_size packages) key) matches
   else Ok matches)
  = for_each (Fl.pair_body float_square math_sqrt max_distance)
      (map (pair driver) (bucket cell_size packages key)) matches.
Proof.
  rewrite for_each_fmap. rewrite grid_of_getitem.
  destruct (decide (is_Some (grid_of cell_size packages !! key)))
    as [Hin|Hout]; [done|].
  rewrite grid_of_lookup in Hout.
  destruct (bucket cell_size packages key); [done|].
  exfalso. apply Hout. by eexists.
Qed.

Lemma fl_scan_neighbors_pairs cell_size packages max_distance driver d_key
    matches :
  Fl.scan_neighbors float_square math_sqrt (grid_of cell_size packages)
    max_distance driver d_key matches
  = for_each (Fl.pair_body float_square math_sqrt max_distance)
      (flat_map
         (fun key => map (pair driver) (bucket cell_size packages key))
         (neighbor_keys d_key))
      matches.
Proof.
  destruct d_key as [cx cy]. unfold Fl.scan_neighbors.
  set (cell := fun key => map (pair driver) (bucket cell_size packages key)).
  rewrite (for_each_ext _
    (fun s i =>
       for_each (Fl.pair_body float_square math_sqrt max_distance)
         (flat_map (fun j => cell (cx + i, cy + j)) (range (-1) 2)) s)).
  - rewrite for_each_flat_map. f_equal.
    rewrite range_3x3. simpl. rewrite !app_nil_r, !Z.add_0_r.
    rewrite <- !app_assoc. reflexivity.
  - intros s i. rewrite <- for_each_flat_map. apply for_each_ext.
    intros s' j. apply fl_scan_cell.
Qed.

Lemma fl_query_drivers_pairs cell_size packages max_distance drivers :
  cell_size <> 0 ->
  Fl.query_drivers float_square math_sqrt (grid_of cell_size packages)
    cell_size max_distance drivers
  = for_each (Fl.pair_body float_square math_sqrt max_distance)
      (Fl.scanned_pairs cell_size drivers packages) [].
Proof.
  intros Hc. unfold Fl.query_drivers, Fl.scanned_pairs.
  rewrite <- for_each_flat_map. apply for_each_ext. intros s driver.
  rewrite get_grid_key_nonzero by done.
  change (Ok ?a ≫= ?k) with (k a). cbv beta.
  apply fl_scan_neighbors_pairs.
Qed.

(** The grid matcher is one loop over the scanned pairs. *)
Lemma fl_find_matches_optimized_pairs drivers packages max_distance :
  py_int max_distance <> 0 ->
  Fl.find_matches_optimized float_square math_sqrt drivers packages max_distance
  = for_each (Fl.pair_body float_square math_sqrt max_distance)
      (Fl.scanned_pairs (py_int max_distance) drivers packages) [].
Proof.
  intros Hc. unfold Fl.find_matches_optimized.
  rewrite build_grid_nonzero by done.
  change (Ok ?a ≫= ?k) with (k a). cbv beta.
  by apply fl_query_drivers_pairs.
Qed.

(** With cell size 0 the first key computation raises. *)
Lemma fl_find_matches_optimized_zero drivers packages max_distance :
  py_int max_distance = 0 ->
  Fl.find_matches_optimized float_square math_sqrt drivers packages max_distance
  = if decide (packages = [] /\ drivers = []) then Ok []
    else Raise ZeroDivisionError.
Proof.
  intros Hc. unfold Fl.find_matches_optimized. rewrite Hc.
  destruct packages as [|pkg packages].
  - destruct drivers as [|driver drivers].
    + by destruct (decide ([] = [] /\ [] = [])) as [|[]].
    + by destruct (decide (@nil Package = [] /\ driver :: drivers = []))
        as [[_ [=]]|].
  - rewrite build_grid_zero.
    by destruct (decide (pkg :: packages = [] /\ drivers = [])) as [[[=] _]|].
Qed.

End FloatMatchers.

(** ** What the matchers return, pair by pair *)

Section FloatMembers.
Variable float_square : Q -> result Q.
Variable math_sqrt : Z -> result Q.

Lemma fl_found_elem_of max_distance (dp : Driver * Package) r :
  r ∈ Fl.found float_square math_sqrt max_distance dp
  <-> exists limit dist,
        in_bounding_box dp.1 dp.2 max_distance = true
        /\ float_square max_distance = Ok limit
        /\ (inject_Z (dist_sq dp.1 dp.2) < limit)%Q
        /\ math_sqrt (dist_sq dp.1 dp.2) = Ok dist
        /\ r = Fl.mkMatchResult (d_id dp.1) (p_id dp.2) dist.
Proof.
  unfold Fl.found, Fl.check_package.
  destruct (in_bounding_box dp.1 dp.2 max_distance).
  2:{ split; [by intros ?%elem_of_nil|]. by intros (? & ? & [=] & _). }
  destruct (float_square max_distance) as [limit|e]; simpl.
  2:{ split; [by intros ?%elem_of_nil|]. by intros (? & ? & _ & [=] & _). }
  destruct (Qltb (inject_Z (dist_sq dp.1 dp.2)) limit) eqn:E.
  2:{ split; [by intros ?%elem_of_nil|].
      intros (? & ? & _ & [= <-] & Hlt%Qltb_lt & _). congruence. }
  apply Qltb_lt in E.
  destruct (math_sqrt (dist_sq dp.1 dp.2)) as [dist|e]; simpl.
  2:{ split; [by intros ?%elem_of_nil|].
      by intros (? & ? & _ & _ & _ & [=] & _). }
  split.
  - intros ->%list_elem_of_singleton. by exists limit, dist.
  - intros (? & ? & _ & [= <-] & _ & [= <-] & ->). by left.
Qed.

Lemma fl_brute_check_app max_distance driver matches pkg :
  Fl.brute_check math_sqrt max_distance driver matches pkg
  = r ← Fl.brute_check math_sqrt max_distance driver [] pkg;
    Ok (matches ++ r).
Proof.
  unfold Fl.brute_check.
  destruct (math_sqrt (dist_sq driver pkg)) as [dist|e]; simpl; [|done].
  destruct (Qltb dist max_distance); simpl; [done|by rewrite app_nil_r].
Qed.

Lemma fl_brute_found_elem_of max_distance (dp : Driver * Package) r :
  r ∈ Fl.brute_found math_sqrt max_distance dp
  <-> exists dist,
        math_sqrt (dist_sq dp.1 dp.2) = Ok dist
        /\ (dist < max_distance)%Q
        /\ r = Fl.mkMatchResult (d_id dp.1) (p_id dp.2) dist.
Proof.
  unfold Fl.brute_found, Fl.brute_check.
  destruct (math_sqrt (dist_sq dp.1 dp.2)) as [dist|e]; simpl.
  2:{ split; [by intros ?%elem_of_nil|]. by intros (? & [=] & _). }
  destruct (Qltb dist max_distance) eqn:E.
  - apply Qltb_lt in E. split.
    + intros ->%list_elem_of_singleton. by exists dist.
    + intros (? & [= <-] & _ & ->). by left.
  - split; [by intros ?%elem_of_nil|].
    intros (? & [= <-] & Hlt%Qltb_lt & _). congruence.
Qed.

(** The brute force is one loop over all pairs. *)
Lemma fl_find_matches_brute_force_pairs drivers packages max_distance :
  Fl.find_matches_brute_force math_sqrt drivers packages max_distance
  = for_each (Fl.brute_pair_body math_sqrt max_distance)
      (Fl.all_pairs drivers packages) [].
Proof.
  unfold Fl.find_matches_brute_force, Fl.all_pairs.
  rewrite <- for_each_flat_map. apply for_each_ext. intros s driver.
  by rewrite for_each_fmap.
Qed.

Lemma fl_brute_force_Ok drivers packages max_distance matches :
  Fl.find_matches_brute_force math_sqrt drivers packages max_distance
  = Ok matches ->
  matches = flat_map (Fl.brute_found math_sqrt max_distance)
              (Fl.all_pairs drivers packages)
  /\ forall dp, dp ∈ Fl.all_pairs drivers packages ->
       exists dist, math_sqrt (dist_sq dp.1 dp.2) = Ok dist.
Proof.
  rewrite fl_find_matches_brute_force_pairs. intros Hloop.
  apply (for_each_appending
           (fun dp => Fl.brute_check math_sqrt max_distance dp.1 [] dp.2))
    in Hloop as [-> Hall].
  - split; [done|]. intros dp Hdp. destruct (Hall dp Hdp) as [r Hr].
    unfold Fl.brute_check in Hr.
    destruct (math_sqrt (dist_sq dp.1 dp.2)) as [dist|e]; [by eexists|done].
  - intros s dp. apply fl_brute_check_app.
Qed.

Lemma fl_brute_force_returns drivers packages max_distance :
  (forall dp, dp ∈ Fl.all_pairs drivers packages ->
     exists dist, math_sqrt (dist_sq dp.1 dp.2) = Ok dist) ->
  exists matches,
    Fl.find_matches_brute_force math_sqrt drivers packages max_distance
    = Ok matches.
Proof.
  intros Hall. rewrite fl_find_matches_brute_force_pairs.
  apply (for_each_appending_Ok
           (fun dp => Fl.brute_check math_sqrt max_distance dp.1 [] dp.2)).
  - intros s dp. apply fl_brute_check_app.
  - intros dp Hdp. destruct (Hall dp Hdp) as [dist Hdist].
    unfold Fl.brute_check. rewrite Hdist. simpl.
    destruct (Qltb dist max_distance); by eexists.
Qed.

Lemma fl_find_matches_optimized_Ok drivers packages max_distance matches :
  Fl.find_matches_optimized float_square math_sqrt drivers packages
    max_distance = Ok matches ->
  matches = flat_map (Fl.found float_square math_sqrt max_distance)
              (Fl.scanned_pairs (py_int max_distance) drivers packages)
  /\ (py_int max_distance = 0 -> drivers = [] /\ packages = []).
Proof.
  destruct (decide (py_int max_distance = 0)) as [Hc|Hc].
  - rewrite fl_find_matches_optimized_zero by done.
    destruct (decide (packages = [] /\ drivers = [])) as [[-> ->]|]; [|done].
    intros [= <-]. done.
  - rewrite fl_find_matches_optimized_pairs by done. intros Hloop.
    apply (for_each_appending
             (fun dp => Fl.check_package float_square math_sqrt max_distance
                          dp.1 [] dp.2))
      in Hloop as [-> _]; [done|].
    intros s dp. apply fl_check_package_app.
Qed.

End FloatMembers.

Lemma all_pairs_elem_of drivers packages (dp : Driver * Package) :
  dp ∈ Fl.all_pairs drivers packages <-> dp.1 ∈ drivers /\ dp.2 ∈ packages.
Proof.
  unfold Fl.all_pairs. rewrite list_elem_of_In, in_flat_map. split.
  - intros (driver & Hd & Hp). apply in_map_iff in Hp as (pkg & <- & Hp).
    by rewrite !list_elem_of_In.
  - intros [Hd Hp]. exists dp.1. rewrite <- list_elem_of_In. split; [done|].
    apply in_map_iff. exists dp.2. rewrite <- list_elem_of_In.
    by destruct dp.
Qed.

Lemma scanned_pairs_elem_of cell_size drivers packages (dp : Driver * Package) :
  dp ∈ Fl.scanned_pairs cell_size drivers packages
  <-> dp.1 ∈ drivers /\ dp.2 ∈ packages
      /\ package_key cell_size dp.2
         ∈ neighbor_keys (driver_key cell_size dp.1).
Proof.
  unfold Fl.scanned_pairs. rewrite list_elem_of_In, in_flat_map. split.
  - intros (driver & Hd & Hk). apply in_flat_map in Hk as (key & Hkey & Hp).
    apply in_map_iff in Hp as (pkg & <- & Hp).
    apply list_elem_of_In, list_elem_of_filter in Hp as [<- Hp].
    simpl. split_and!; [by apply list_elem_of_In|done|by apply list_elem_of_In].
  - intros (Hd & Hp & Hk). exists dp.1. rewrite <- list_elem_of_In.
    split; [done|]. apply in_flat_map.
    exists (package_key cell_size dp.2). rewrite <- list_elem_of_In.
    split; [done|]. apply in_map_iff. exists dp.2.
    split; [by destruct dp|].
    apply list_elem_of_In, list_elem_of_filter. done.
Qed.

Lemma flat_map_elem_of {A B : Type} (f : A -> list B) (l : list A) (b : B) :
  b ∈ flat_map f l <-> exists a, a ∈ l /\ b ∈ f a.
Proof.
  rewrite list_elem_of_In, in_flat_map. split.
  - intros (a & Ha & Hb). exists a. by rewrite !list_elem_of_In.
  - intros (a & Ha & Hb). exists a. by rewrite <- !list_elem_of_In.
Qed.

Lemma fl_brute_matches_elem_of math_sqrt drivers packages max_distance
    brute_matches r :
  Fl.find_matches_brute_force math_sqrt drivers packages max_distance
  = Ok brute_matches ->
  r ∈ brute_matches
  <-> exists driver pkg dist,
        driver ∈ drivers /\ pkg ∈ packages
        /\ math_sqrt (dist_sq driver pkg) = Ok dist
        /\ (dist < max_distance)%Q
        /\ r = Fl.mkMatchResult (d_id driver) (p_id pkg) dist.
Proof.
  intros [-> _]%fl_brute_force_Ok.
  rewrite flat_map_elem_of. split.
  - intros (dp & [Hd Hp]%all_pairs_elem_of
            & (dist & Hs & Hlt & ->)%fl_brute_found_elem_of).
    by exists dp.1, dp.2, dist.
  - intros (driver & pkg & dist & Hd & Hp & Hs & Hlt & ->).
    exists (driver, pkg). split; [by apply all_pairs_elem_of|].
    apply fl_brute_found_elem_of. by exists dist.
Qed.

Lemma fl_grid_matches_elem_of float_square math_sqrt drivers packages
    max_distance grid_matches r :
  Fl.find_matches_optimized float_square math_sqrt drivers packages
    max_distance = Ok grid_matches ->
  r ∈ grid_matches
  <-> exists driver pkg limit dist,
        driver ∈ drivers /\ pkg ∈ packages
        /\ in_bounding_box driver pkg max_distance = true
        /\ float_square max_distance = Ok limit
        /\ (inject_Z (dist_sq driver pkg) < limit)%Q
        /\ math_sqrt (dist_sq driver pkg) = Ok dist
        /\ r = Fl.mkMatchResult (d_id driver) (p_id pkg) dist.
Proof.
  intros [-> Hzero]%fl_find_matches_optimized_Ok.
  rewrite flat_map_elem_of. split.
  - intros (dp & (Hd & Hp & _)%scanned_pairs_elem_of
            & (limit & dist & Hbox & Hsq & Hlt & Hs & ->)%fl_found_elem_of).
    by exists dp.1, dp.2, limit, dist.
  - intros (driver & pkg & limit & dist & Hd & Hp & Hbox & Hsq & Hlt & Hs
            & ->).
    destruct (decide (py_int max_distance = 0)) as [Hc|Hc].
    { destruct (Hzero Hc) as [-> _]. by apply elem_of_nil in Hd. }
    exists (driver, pkg). split.
    + apply scanned_pairs_elem_of. split_and!; [done..|].
      by apply bounding_box_neighbor.
    + apply fl_found_elem_of. by exists limit, dist.
Qed.

(** ** Order of the returned matches *)

Lemma fl_found_cases float_square math_sqrt max_distance
    (dp : Driver * Package) :
  Fl.found float_square math_sqrt max_distance dp = []
  \/ exists dist,
       Fl.found float_square math_sqrt max_distance dp
       = [Fl.mkMatchResult (d_id dp.1) (p_id dp.2) dist].
Proof.
  unfold Fl.found, Fl.check_package.
  destruct (in_bounding_box dp.1 dp.2 max_distance); [|by left].
  destruct (float_square max_distance) as [limit|e]; simpl; [|by left].
  destruct (Qltb (inject_Z (dist_sq dp.1 dp.2)) limit); [|by left].
  destruct (math_sqrt (dist_sq dp.1 dp.2)) as [dist|e]; simpl; [|by left].
  right. by exists dist.
Qed.

Lemma fl_found_ids_sublist float_square math_sqrt max_distance
    (l : list (Driver * Package)) :
  map Fl.id_pair (flat_map (Fl.found float_square math_sqrt max_distance) l)
  `sublist_of` map Fl.pair_ids l.
Proof.
  induction l as [|dp l IH]; [done|]. simpl.
  destruct (fl_found_cases float_square math_sqrt max_distance dp)
    as [->|[dist ->]]; simpl.
  - by apply sublist_cons.
  - by apply sublist_skip.
Qed.

Lemma neighbor_keys_loops (cx cy : Z) :
  neighbor_keys (cx, cy)
  = flat_map (fun i => map (fun j => (cx + i, cy + j)) (range (-1) 2))
      (range (-1) 2).
Proof. rewrite range_3x3. simpl. by rewrite !Z.add_0_r. Qed.

(** C6.  Whenever [find_matches_optimized] returns, its list is what the
    innermost loop body appended for the scanned pairs, taken in the order
    of [scanned_pairs]: driver after driver in input order (agent-major),
    for one driver the nine cells [(cx + i, cy + j)] with [i] from -1 to 1
    in the outer and [j] from -1 to 1 in the inner loop, and inside a cell
    the packages in the order they were inserted, which is their input
    order.  In particular the id pairs of the result are a sublist, in that
    order, of the id pairs of the scanned pairs.  This holds whatever the
    float operations return; which pairs match and which exception ends a
    call are not part of the statement. *)
Theorem grid_matches_order float_square math_sqrt drivers packages
    max_distance matches :
  Fl.find_matches_optimized float_square math_sqrt drivers packages
    max_distance = Ok matches ->
  matches
  = flat_map (Fl.found float_square math_sqrt max_distance)
      (Fl.scanned_pairs (py_int max_distance) drivers packages)
  /\ map Fl.id_pair matches
     `sublist_of`
     map Fl.pair_ids (Fl.scanned_pairs (py_int max_distance) drivers packages)
  /\ (forall cx cy,
        neighbor_keys (cx, cy)
        = flat_map (fun i => map (fun j => (cx + i, cy + j)) (range (-1) 2))
            (range (-1) 2)).
Proof.
  intros [-> _]%fl_find_matches_optimized_Ok. split_and!.
  - done.
  - apply fl_found_ids_sublist.
  - apply neighbor_keys_loops.
Qed.

Lemma grid_matches_order_witness :
  B64.find_matches_optimized
    [mkDriver 1 0 0; mkDriver 2 100 100]
    [mkPackage 7 30 40 "high"; mkPackage 8 90 90 "low";
     mkPackage 9 (-3) (-4) "low"; mkPackage 10 3 4 "high"]
    (101 # 2)
  = Ok [Fl.mkMatchResult 1 9 5; Fl.mkMatchResult 1 7 50;
        Fl.mkMatchResult 1 10 5;
        Fl.mkMatchResult 2 8 (124395540479019 # 8796093022208)]
  /\ map Fl.id_pair
       [Fl.mkMatchResult 1 9 5; Fl.mkMatchResult 1 7 50;
        Fl.mkMatchResult 1 10 5;
        Fl.mkMatchResult 2 8 (124395540479019 # 8796093022208)]
     `sublist_of`
     map Fl.pair_ids
       (Fl.scanned_pairs (py_int (101 # 2))
          [mkDriver 1 0 0; mkDriver 2 100 100]
          [mkPackage 7 30 40 "high"; mkPackage 8 90 90 "low";
           mkPackage 9 (-3) (-4) "low"; mkPackage 10 3 4 "high"]).
Proof.
  split; [by vm_compute|].
  apply (grid_matches_order B64.float_square B64.math_sqrt
           [mkDriver 1 0 0; mkDriver 2 100 100]
           [mkPackage 7 30 40 "high"; mkPackage 8 90 90 "low";
            mkPackage 9 (-3) (-4) "low"; mkPackage 10 3 4 "high"]
           (101 # 2)).
  by vm_compute.
Defined.

(** ** Which pairs match *)




(** ** Negative coordinates *)

(** C5.  For a positive cell size [get_grid_key] returns the mathematical
    floor of [x / cell_size] and of [y / cell_size] (the unique integers [k]
    with [k * cell_size <= x < (k + 1) * cell_size]), for negative
    coordinates too.  The match sets of the two matchers nevertheless
    differ on inputs with negative coordinates: with
    [max_distance = 1.4142135623730951], a driver at (0,0) and a package at
    (-1,-1), the grid matcher returns the pair and the brute force returns
    nothing; and with a package at [(-2**600, 0)] and [max_distance = 50]
    the grid matcher returns the empty list where the brute force raises
    [OverflowError]. *)
Theorem grid_key_floor (x y cell_size : Z) :
  0 < cell_size ->
  get_grid_key x y cell_size
  = Ok (Qfloor (inject_Z x / inject_Z cell_size),
        Qfloor (inject_Z y / inject_Z cell_size))
  /\ (exists kx ky,
        get_grid_key x y cell_size = Ok (kx, ky)
        /\ kx * cell_size <= x < (kx + 1) * cell_size
        /\ ky * cell_size <= y < (ky + 1) * cell_size)
  /\ B64.find_matches_optimized [mkDriver 1 0 0]
       [mkPackage 7 (-1) (-1) "high"] (6369051672525773 # 4503599627370496)
     = Ok [Fl.mkMatchResult 1 7 (6369051672525773 # 4503599627370496)]
  /\ B64.find_matches_brute_force [mkDriver 1 0 0]
       [mkPackage 7 (-1) (-1) "high"] (6369051672525773 # 4503599627370496)
     = Ok []
  /\ B64.find_matches_optimized [mkDriver 1 0 0]
       [mkPackage 7 (- 2 ^ 600) 0 "high"] 50
     = Ok []
  /\ B64.find_matches_brute_force [mkDriver 1 0 0]
       [mkPackage 7 (- 2 ^ 600) 0 "high"] 50
     = Raise OverflowError.
Proof.
  intros Hc.
  rewrite get_grid_key_nonzero by lia. rewrite !Qfloor_div by done.
  split_and!.
  - done.
  - exists (x / cell_size), (y / cell_size). split; [done|].
    pose proof (Z.div_mod x cell_size ltac:(lia)).
    pose proof (Z.div_mod y cell_size ltac:(lia)).
    pose proof (Z.mod_pos_bound x cell_size Hc).
    pose proof (Z.mod_pos_bound y cell_size Hc). nia.
  - by vm_compute.
  - by vm_compute.
  - by vm_compute.
  - by vm_compute.
Qed.

Lemma grid_key_floor_witness :
  0 < 50
  /\ get_grid_key (-1) (-51) 50 = Ok (-1, -2)
  /\ (-1) * 50 <= -1 < (-1 + 1) * 50.
Proof.
  split; [done|].
  destruct (grid_key_floor (-1) (-51) 50) as (Hkey & _); [done|].
  split; [exact Hkey|lia].
Defined.

(** ** The bounding-box pre-filter *)

Lemma py_int_positive (max_distance : Q) :
  (0 < max_distance)%Q ->
  0 <= py_int max_distance
  /\ (inject_Z (py_int max_distance) <= max_distance)%Q
  /\ (max_distance < inject_Z (py_int max_distance + 1))%Q.
Proof.
  destruct max_distance as [n d]. unfold py_int, Qlt, Qle. simpl.
  rewrite !Z.mul_1_r. intros Hn.
  rewrite Z.quot_div_nonneg by lia.
  pose proof (Z.div_pos n (Z.pos d) ltac:(lia) ltac:(lia)).
  pose proof (Z.mul_div_le n (Z.pos d) ltac:(lia)).
  pose proof (Z.mul_succ_div_gt n (Z.pos d) ltac:(lia)).
  split_and!; [lia|lia|lia].
Qed.

Lemma below_limit_in_bounding_box max_distance limit driver pkg :
  (0 < max_distance)%Q ->
  (limit <= inject_Z ((py_int max_distance + 1) ^ 2))%Q ->
  (inject_Z (dist_sq driver pkg) < limit)%Q ->
  in_bounding_box driver pkg max_distance = true.
Proof.
  intros Hpos Hlimit Hlt.
  destruct (py_int_positive _ Hpos) as (Hc & Hle & _).
  pose proof (Qlt_le_trans _ _ _ Hlt Hlimit) as Hd.
  rewrite <- Zlt_Qlt in Hd. unfold dist_sq in Hd.
  unfold in_bounding_box. rewrite andb_true_iff, !Qle_bool_iff.
  split.
  - apply Qle_trans with (inject_Z (py_int max_distance)); [|done].
    rewrite <- Zle_Qle. nia.
  - apply Qle_trans with (inject_Z (py_int max_distance)); [|done].
    rewrite <- Zle_Qle. nia.
Qed.

Lemma fl_check_package_no_prefilter_eq float_square math_sqrt max_distance
    limit driver matches pkg :
  (0 < max_distance)%Q ->
  float_square max_distance = Ok limit ->
  (limit <= inject_Z ((py_int max_distance + 1) ^ 2))%Q ->
  Fl.check_package_no_prefilter float_square math_sqrt max_distance driver
    matches pkg
  = Fl.check_package float_square math_sqrt max_distance driver matches pkg.
Proof.
  intros Hpos Hsq Hlimit.
  unfold Fl.check_package_no_prefilter, Fl.check_package. rewrite Hsq.
  change (Ok ?a ≫= ?k) with (k a). cbv beta.
  destruct (Qltb (inject_Z (dist_sq driver pkg)) limit) eqn:E.
  - apply Qltb_lt in E.
    by rewrite (below_limit_in_bounding_box _ limit) by done.
  - by destruct (in_bounding_box driver pkg max_distance).
Qed.

(** C9, counterexample.  With [max_distance = 1152921519454846976.0], a
    driver at (0,0) and a package at [(1152921519454846977, 0)], the
    squared distance is strictly below [max_distance ** 2] as computed (the
    float square is rounded up) although [|dx| <= max_distance] is false:
    the pre-filter rejects the pair, and without it the pair is
    returned. *)
Lemma prefilter_rejects_beyond_rounding :
  (0 < 1152921519454846976)%Q
  /\ B64.float_square 1152921519454846976
     = Ok 1329228030022073168856640038929170432%Q
  /\ (inject_Z (dist_sq (mkDriver 1 0 0)
                  (mkPackage 7 1152921519454846977 0 "high"))
      < 1329228030022073168856640038929170432)%Q
  /\ ~ (inject_Z (Z.abs (d_x (mkDriver 1 0 0)
                         - p_x (mkPackage 7 1152921519454846977 0 "high")))
        <= 1152921519454846976)%Q
  /\ B64.find_matches_optimized [mkDriver 1 0 0]
       [mkPackage 7 1152921519454846977 0 "high"] 1152921519454846976
     = Ok []
  /\ B64.find_matches_optimized_no_prefilter [mkDriver 1 0 0]
       [mkPackage 7 1152921519454846977 0 "high"] 1152921519454846976
     = Ok [Fl.mkMatchResult 1 7 1152921519454846976].
Proof.
  split_and!; try by vm_compute.
Qed.

(** C9.  For a positive [max_distance] whose computed square
    [max_distance ** 2] is at most [(int(max_distance) + 1) ** 2], which the
    exact square always is, a squared distance strictly below the computed
    square puts the package inside the bounding box, and the grid matcher
    without the pre-check has the same outcome, list or exception, as the
    one with it. *)
Theorem prefilter_conservative float_square math_sqrt drivers packages
    max_distance limit :
  (0 < max_distance)%Q ->
  float_square max_distance = Ok limit ->
  (limit <= inject_Z ((py_int max_distance + 1) ^ 2))%Q ->
  (forall driver pkg,
     (inject_Z (dist_sq driver pkg) < limit)%Q ->
     (inject_Z (Z.abs (d_x driver - p_x pkg)) <= max_distance)%Q
     /\ (inject_Z (Z.abs (d_y driver - p_y pkg)) <= max_distance)%Q)
  /\ Fl.find_matches_optimized_no_prefilter float_square math_sqrt drivers
       packages max_distance
     = Fl.find_matches_optimized float_square math_sqrt drivers packages
         max_distance
  /\ (max_distance * max_distance
      <= inject_Z ((py_int max_distance + 1) ^ 2))%Q.
Proof.
  intros Hpos Hsq Hlimit. split_and!.
  - intros driver pkg Hlt.
    pose proof (below_limit_in_bounding_box _ _ _ _ Hpos Hlimit Hlt) as Hbox.
    unfold in_bounding_box in Hbox.
    by rewrite andb_true_iff, !Qle_bool_iff in Hbox.
  - unfold Fl.find_matches_optimized_no_prefilter, Fl.find_matches_optimized.
    destruct (build_grid packages (py_int max_distance)) as [grid|e]; [|done].
    change (Ok ?a ≫= ?k) with (k a). cbv beta.
    unfold Fl.query_drivers_no_prefilter, Fl.query_drivers.
    apply for_each_ext. intros s driver.
    destruct (get_grid_key (d_x driver) (d_y driver) (py_int max_distance))
      as [[cx cy]|e]; [|done].
    change (Ok ?a ≫= ?k) with (k a). cbv beta.
    unfold Fl.scan_neighbors_no_prefilter, Fl.scan_neighbors.
    apply for_each_ext. intros s' i. apply for_each_ext. intros s'' j.
    cbv zeta. destruct (decide (is_Some (grid !! (cx + i, cy + j)))); [|done].
    apply for_each_ext. intros.
    by apply (fl_check_package_no_prefilter_eq _ _ _ limit).
  - destruct (py_int_positive _ Hpos) as (Hc & _ & Hlt).
    rewrite Z.pow_2_r, inject_Z_mult.
    apply Qlt_le_weak.
    apply Qle_lt_trans
      with (max_distance * inject_Z (py_int max_distance + 1))%Q.
    + apply Qmult_le_l; [done|by apply Qlt_le_weak].
    + apply Qmult_lt_r; [|done]. by apply Qlt_trans with max_distance.
Qed.

Lemma prefilter_conservative_witness :
  (0 < 50)%Q
  /\ B64.float_square 50 = Ok 2500%Q
  /\ (2500 <= inject_Z ((py_int 50 + 1) ^ 2))%Q
  /\ B64.find_matches_optimized_no_prefilter
       [mkDriver 1 0 0] [mkPackage 7 30 39 "high"; mkPackage 8 30 40 "high"] 50
     = B64.find_matches_optimized
         [mkDriver 1 0 0] [mkPackage 7 30 39 "high"; mkPackage 8 30 40 "high"]
         50.
Proof.
  split; [done|]. split; [by vm_compute|]. split; [by vm_compute|].
  apply (prefilter_conservative B64.float_square B64.math_sqrt
           [mkDriver 1 0 0]
           [mkPackage 7 30 39 "high"; mkPackage 8 30 40 "high"] 50 2500).
  - done.
  - by vm_compute.
  - by vm_compute.
Defined.

(** ** Raising the threshold *)

(** X16.  Raising the threshold only adds matches: if the brute force
    returns for [max_distance], it returns for every larger threshold too
    (whether [math.sqrt] raises does not depend on the threshold), and the
    list for the smaller threshold is a sublist (same order, some entries
    left out) of the list for the larger one. *)
Theorem brute_force_monotone math_sqrt drivers packages md md' matches :
  (md <= md')%Q ->
  Fl.find_matches_brute_force math_sqrt drivers packages md = Ok matches ->
  exists matches',
    Fl.find_matches_brute_force math_sqrt drivers packages md' = Ok matches'
    /\ matches `sublist_of` matches'.
Proof.
  intros Hle [-> Hall]%fl_brute_force_Ok.
  destruct (fl_brute_force_returns math_sqrt drivers packages md' Hall)
    as [matches' Hret].
  exists matches'. split; [done|].
  apply fl_brute_force_Ok in Hret as [-> _].
  apply flat_map_sublist. intros dp.
  unfold Fl.brute_found, Fl.brute_check.
  destruct (math_sqrt (dist_sq dp.1 dp.2)) as [dist|e]; simpl; [|done].
  destruct (Qltb dist md) eqn:E; simpl.
  - apply Qltb_lt in E.
    assert (Qltb dist md' = true) as ->; [|done].
    apply Qltb_lt. by apply Qlt_le_trans with md.
  - apply sublist_nil_l.
Qed.

Lemma brute_force_monotone_witness :
  (40 <= 50)%Q
  /\ B64.find_matches_brute_force [mkDriver 1 0 0]
       [mkPackage 7 30 0 "high"; mkPackage 8 0 45 "low"] 40
     = Ok [Fl.mkMatchResult 1 7 30]
  /\ exists matches',
       B64.find_matches_brute_force [mkDriver 1 0 0]
         [mkPackage 7 30 0 "high"; mkPackage 8 0 45 "low"] 50 = Ok matches'
       /\ [Fl.mkMatchResult 1 7 30] `sublist_of` matches'.
Proof.
  split; [done|]. split; [by vm_compute|].
  apply (brute_force_monotone B64.math_sqrt [mkDriver 1 0 0]
           [mkPackage 7 30 0 "high"; mkPackage 8 0 45 "low"] 40 50).
  - done.
  - by vm_compute.
Defined.

(** ** When the two matchers agree *)

(** X11.  The two matchers return the same set of matches whenever both
    return and their two acceptance tests agree on every input pair, that
    is, whenever for each pair the computed [math.sqrt(dist_sq)] is
    strictly below [max_distance] exactly when the pair is inside the
    bounding box with [dist_sq] strictly below the computed
    [max_distance ** 2]: with a cell size that is not 0 the 3x3 scan
    reaches every pair that can pass the test. *)
Theorem matchers_agree_when_tests_agree float_square math_sqrt drivers
    packages max_distance limit grid_matches brute_matches :
  Fl.find_matches_optimized float_square math_sqrt drivers packages
    max_distance = Ok grid_matches ->
  Fl.find_matches_brute_force math_sqrt drivers packages max_distance
  = Ok brute_matches ->
  float_square max_distance = Ok limit ->
  (forall driver pkg dist,
     driver ∈ drivers -> pkg ∈ packages ->
     math_sqrt (dist_sq driver pkg) = Ok dist ->
     (dist < max_distance)%Q
     <-> in_bounding_box driver pkg max_distance = true
         /\ (inject_Z (dist_sq driver pkg) < limit)%Q) ->
  forall r, r ∈ grid_matches <-> r ∈ brute_matches.
Proof.
  intros Hgrid Hbrute Hsq Hagree r.
  rewrite (fl_grid_matches_elem_of _ _ _ _ _ _ _ Hgrid).
  rewrite (fl_brute_matches_elem_of _ _ _ _ _ _ Hbrute).
  split.
  - intros (driver & pkg & limit' & dist & Hd & Hp & Hbox & Hsq' & Hlt & Hs
            & ->).
    exists driver, pkg, dist. split_and!; [done..| |done].
    apply (Hagree driver pkg dist); [done..|].
    rewrite Hsq in Hsq'. by injection Hsq' as <-.
  - intros (driver & pkg & dist & Hd & Hp & Hs & Hlt & ->).
    apply (Hagree driver pkg dist) in Hlt as [Hbox Hlt]; [|done..].
    by exists driver, pkg, limit, dist.
Qed.

Lemma matchers_agree_when_tests_agree_witness :
  B64.find_matches_optimized [mkDriver 1 0 0] [mkPackage 7 (-30) (-40) "high"]
    (101 # 2)
  = Ok [Fl.mkMatchResult 1 7 50]
  /\ B64.find_matches_brute_force [mkDriver 1 0 0]
       [mkPackage 7 (-30) (-40) "high"] (101 # 2)
     = Ok [Fl.mkMatchResult 1 7 50]
  /\ forall r, r ∈ [Fl.mkMatchResult 1 7 50] <-> r ∈ [Fl.mkMatchResult 1 7 50].
Proof.
  split; [by vm_compute|]. split; [by vm_compute|].
  apply (matchers_agree_when_tests_agree B64.float_square B64.math_sqrt
           [mkDriver 1 0 0] [mkPackage 7 (-30) (-40) "high"] (101 # 2)
           (10201 # 4)).
  - by vm_compute.
  - by vm_compute.
  - by vm_compute.
  - intros driver pkg dist ->%list_elem_of_singleton ->%list_elem_of_singleton.
    intros Hs. vm_compute in Hs. injection Hs as <-.
    split; [intros _; by vm_compute|intros _; by vm_compute].
Defined.

(** ** pearson_correlation on floats *)

Section PearsonFloat.
Variable F : Type.
Variable zero : F.
Variable eq_zero : F -> bool.
Variable fsum : list F -> F.
Variables sub mul div : F -> F -> F.
Variable square : F -> option F.
Variable root : F -> F.
Variable mean : list F -> F.

Local Notation "'pearson_fl'" :=
  (Fl.pearson_correlation F zero eq_zero fsum sub mul div square root mean).
Local Notation "'sum_squares_fl'" := (Fl.sum_squares F fsum sub square).

Lemma fl_squares_from (m : F) (l : list F) (ts : list F) :
  (exists v,
     for_each (fun ts x => t ← Fl.float_pow2 F square (sub x m);
                           Ok (ts ++ [t])) l ts = Ok v)
  \/ for_each (fun ts x => t ← Fl.float_pow2 F square (sub x m);
                           Ok (ts ++ [t])) l ts = Raise OverflowError.
Proof.
  revert ts. induction l as [|x l IH]; intros ts; simpl.
  - left. by eexists.
  - destruct (Fl.float_pow2 F square (sub x m)) as [t|e] eqn:E; simpl.
    + apply IH.
    + right. unfold Fl.float_pow2 in E.
      destruct (square (sub x m)); [done|]. by injection E as <-.
Qed.

Lemma fl_sum_squares_cases (m : F) (l : list F) :
  (exists v, sum_squares_fl m l = Ok v)
  \/ sum_squares_fl m l = Raise OverflowError.
Proof.
  unfold Fl.sum_squares, Fl.squares.
  destruct (fl_squares_from m l []) as [[v ->]| ->].
  - left. by eexists.
  - by right.
Qed.

(** The outcome of [pearson_correlation], case by case. *)
Lemma fl_pearson_cases (xs ys : list F) :
  pearson_fl xs ys
  = if (length xs <? 2)%nat then Ok zero
    else match ys with
         | [] => Raise StatisticsError
         | _ =>
             match sum_squares_fl (mean xs) xs with
             | Raise e => Raise e
             | Ok sum_x =>
                 match sum_squares_fl (mean ys) ys with
                 | Raise e => Raise e
                 | Ok sum_y =>
                     if eq_zero (root (mul sum_x sum_y)) then Ok zero
                     else Ok (div
                                (fsum
                                   (map (fun xy => mul (sub xy.1 (mean xs))
                                                     (sub xy.2 (mean ys)))
                                      (combine xs ys)))
                                (root (mul sum_x sum_y)))
                 end
             end
         end.
Proof.
  unfold Fl.pearson_correlation.
  destruct (length xs <? 2)%nat eqn:En; [done|].
  destruct xs as [|x xs]; [done|].
  change (Fl.statistics_mean F mean (x :: xs)) with (Ok (mean (x :: xs))).
  change (Ok ?a ≫= ?k) with (k a). cbv beta.
  destruct ys as [|y ys]; [done|].
  change (Fl.statistics_mean F mean (y :: ys)) with (Ok (mean (y :: ys))).
  change (Ok ?a ≫= ?k) with (k a). cbv beta.
  destruct (sum_squares_fl (mean (x :: xs)) (x :: xs)) as [sum_x|e]; [|done].
  change (Ok ?a ≫= ?k) with (k a). cbv beta.
  destruct (sum_squares_fl (mean (y :: ys)) (y :: ys)) as [sum_y|e]; [|done].
  change (Ok ?a ≫= ?k) with (k a). cbv beta. cbv zeta.
  unfold Fl.float_div.
  by destruct (eq_zero (root (mul sum_x sum_y))).
Qed.

Lemma fl_pearson_raises (xs ys : list F) (e : exn) :
  pearson_fl xs ys = Raise e ->
  (e = StatisticsError /\ (2 <= length xs)%nat /\ ys = [])
  \/ (e = OverflowError /\ (2 <= length xs)%nat /\ ys <> []
      /\ (sum_squares_fl (mean xs) xs = Raise OverflowError
          \/ sum_squares_fl (mean ys) ys = Raise OverflowError)).
Proof.
  rewrite fl_pearson_cases.
  destruct (length xs <? 2)%nat eqn:En; [done|].
  apply Nat.ltb_ge in En.
  destruct ys as [|y ys]; [intros [= <-]; by left|].
  destruct (fl_sum_squares_cases (mean xs) xs) as [[sum_x ->]| ->].
  - destruct (fl_sum_squares_cases (mean (y :: ys)) (y :: ys))
      as [[sum_y Hy]|Hy]; rewrite Hy.
    + by destruct (eq_zero (root (mul sum_x sum_y))).
    + intros [= <-]. right. split_and!; [done..|]. by right.
  - intros [= <-]. right. split_and!; [done..|]. by left.
Qed.

End PearsonFloat.

(** C10, counterexample.  [pearson_correlation] is not total on
    equal-length lists of floats: on [xs = [0.0, 2.0**600]] and
    [ys = [0.0, 1.0]] the square [(0.0 - 2.0**599) ** 2] overflows and the
    call raises [OverflowError]. *)
Lemma pearson_overflow :
  length [B64.of_Z 0; B64.of_Z (2 ^ 600)] = length [B64.of_Z 0; B64.of_Z 1]
  /\ B64.pearson_correlation [B64.of_Z 0; B64.of_Z (2 ^ 600)]
       [B64.of_Z 0; B64.of_Z 1]
     = Raise OverflowError.
Proof. split; [done|by vm_compute]. Qed.

(** C10.  On two lists of equal length [pearson_correlation] raises no
    [ZeroDivisionError], no [StatisticsError] and no [ValueError]; it
    returns 0.0 when the lists have fewer than 2 elements; otherwise, when
    no square [(x - mean) ** 2] overflows, it returns 0.0 when the computed
    denominator equals 0 and [numerator / denominator] when it does not;
    and it raises, then with [OverflowError], exactly when one of the
    squares overflows. *)
Theorem pearson_outcomes (F : Type) (zero : F) (eq_zero : F -> bool)
    (fsum : list F -> F)
    (sub mul div : F -> F -> F) (square : F -> option F) (root : F -> F)
    (mean : list F -> F) (xs ys : list F) :
  length xs = length ys ->
  Fl.pearson_correlation F zero eq_zero fsum sub mul div square root mean xs ys
  <> Raise ZeroDivisionError
  /\ Fl.pearson_correlation F zero eq_zero fsum sub mul div square root mean
       xs ys
     <> Raise StatisticsError
  /\ Fl.pearson_correlation F zero eq_zero fsum sub mul div square root mean
       xs ys
     <> Raise ValueError
  /\ ((length xs < 2)%nat ->
      Fl.pearson_correlation F zero eq_zero fsum sub mul div square root mean
        xs ys
      = Ok zero)
  /\ ((2 <= length xs)%nat ->
      forall sum_x sum_y,
        Fl.sum_squares F fsum sub square (mean xs) xs = Ok sum_x ->
        Fl.sum_squares F fsum sub square (mean ys) ys = Ok sum_y ->
        Fl.pearson_correlation F zero eq_zero fsum sub mul div square root mean
          xs ys
        = if eq_zero (root (mul sum_x sum_y)) then Ok zero
          else Ok (div
                     (fsum
                        (map (fun xy => mul (sub xy.1 (mean xs))
                                          (sub xy.2 (mean ys)))
                           (combine xs ys)))
                     (root (mul sum_x sum_y))))
  /\ ((2 <= length xs)%nat ->
      (exists e,
         Fl.pearson_correlation F zero eq_zero fsum sub mul div square root
           mean xs ys
         = Raise e)
      <-> Fl.sum_squares F fsum sub square (mean xs) xs
          = Raise OverflowError
          \/ Fl.sum_squares F fsum sub square (mean ys) ys
             = Raise OverflowError)
  /\ (forall e,
        Fl.pearson_correlation F zero eq_zero fsum sub mul div square root mean
          xs ys
        = Raise e ->
        e = OverflowError).
Proof.
  intros Hlen.
  assert (forall e,
            Fl.pearson_correlation F zero eq_zero fsum sub mul div square root
              mean xs ys = Raise e -> e = OverflowError) as Hexn.
  { intros e [(-> & Hn & ->)|(-> & _)]%fl_pearson_raises; [|done].
    simpl in Hlen. lia. }
  split_and!.
  - intros H. by apply Hexn in H.
  - intros H. by apply Hexn in H.
  - intros H. by apply Hexn in H.
  - intros Hn. rewrite fl_pearson_cases.
    by apply Nat.ltb_lt in Hn as ->.
  - intros Hn sum_x sum_y Hx Hy. rewrite fl_pearson_cases.
    assert ((length xs <? 2)%nat = false) as -> by by apply Nat.ltb_ge.
    destruct ys as [|y ys]; [simpl in Hlen; lia|].
    by rewrite Hx, Hy.
  - intros Hn. split.
    + intros [e [(_ & _ & ->)|(_ & _ & _ & H)]%fl_pearson_raises];
        [simpl in Hlen; lia|done].
    + intros H. rewrite fl_pearson_cases.
      assert ((length xs <? 2)%nat = false) as -> by by apply Nat.ltb_ge.
      destruct ys as [|y ys]; [simpl in Hlen; lia|].
      destruct H as [-> | Hy]; [by eexists|].
      destruct (Fl.sum_squares F fsum sub square (mean xs) xs);
        [|by eexists].
      rewrite Hy. by eexists.
  - exact Hexn.
Qed.

Lemma pearson_outcomes_witness :
  length (map B64.of_Z [1; 2; 4]) = length (map B64.of_Z [8; 11; 17])
  /\ B64.pearson_correlation (map B64.of_Z [1; 2; 4]) (map B64.of_Z [8; 11; 17])
     = Ok (S754_finite false 4503599627370497 (-52))
  /\ B64.pearson_correlation (map B64.of_Z [1; 2; 4]) (map B64.of_Z [8; 11; 17])
     <> Raise ZeroDivisionError.
Proof.
  split; [done|]. split; [by vm_compute|].
  apply (pearson_outcomes spec_float B64.zero B64.eq_zero
           B64.fsum (SFsub B64.prec B64.emax)
           (SFmul B64.prec B64.emax) (SFdiv B64.prec B64.emax)
           B64.square (SFsqrt B64.prec B64.emax) B64.mean
           (map B64.of_Z [1; 2; 4]) (map B64.of_Z [8; 11; 17])).
  done.
Defined.

(** X20.  [pearson_correlation] raises [StatisticsError] in exactly one
    situation: the first list has at least two elements and the second is
    empty (the exception of [statistics.mean]).  Its only other exception
    is the [OverflowError] of a square, and it never raises
    [ZeroDivisionError].  Lists of different lengths are otherwise
    accepted ([zip] cuts the pairs short). *)
Theorem pearson_raises_iff (F : Type) (zero : F) (eq_zero : F -> bool)
    (fsum : list F -> F)
    (sub mul div : F -> F -> F) (square : F -> option F) (root : F -> F)
    (mean : list F -> F) (xs ys : list F) :
  (Fl.pearson_correlation F zero eq_zero fsum sub mul div square root mean
     xs ys
   = Raise StatisticsError
   <-> (2 <= length xs)%nat /\ ys = [])
  /\ (forall e,
        Fl.pearson_correlation F zero eq_zero fsum sub mul div square root mean
          xs ys
        = Raise e ->
        e = StatisticsError \/ e = OverflowError)
  /\ Fl.pearson_correlation F zero eq_zero fsum sub mul div square root mean
       xs ys
     <> Raise ZeroDivisionError.
Proof.
  split_and!.
  - split.
    + intros [(_ & Hn & ->)|([=] & _)]%fl_pearson_raises. done.
    + intros [Hn ->]. rewrite fl_pearson_cases.
      by apply Nat.ltb_ge in Hn as ->.
  - intros e [(-> & _)|(-> & _)]%fl_pearson_raises; [by left|by right].
  - by intros [([=] & _)|([=] & _)]%fl_pearson_raises.
Qed.

(** ** Expiry with the float sum *)

Lemma fl_get_set_expired float_add now now' name value ex cache :
  0 < ex ->
  ~ (float_add now ex == 0)%Q ->
  (float_add now ex < now')%Q ->
  MockRedis.get now' name (Fl.MockRedis.set float_add now name value ex cache)
  = (None, delete name cache).
Proof.
  intros Hex Hnz Hlate. unfold MockRedis.get, Fl.MockRedis.set.
  rewrite lookup_insert_eq.
  destruct (Z.ltb_spec 0 ex) as [_|?]; [|lia].
  assert (Qeq_bool (float_add now ex) 0 = false) as ->.
  { apply not_true_iff_false. by rewrite Qeq_bool_iff. }
  rewrite (proj2 (Qltb_lt _ _) Hlate). simpl.
  by rewrite delete_insert_eq.
Qed.

Lemma fl_get_set_live float_add now now' name value ex cache :
  ex <= 0 \/ (now' <= float_add now ex)%Q ->
  MockRedis.get now' name (Fl.MockRedis.set float_add now name value ex cache)
  = (Some value, Fl.MockRedis.set float_add now name value ex cache).
Proof.
  intros Hlive. unfold MockRedis.get, Fl.MockRedis.set.
  rewrite lookup_insert_eq.
  destruct (Z.ltb_spec 0 ex) as [Hex|Hex].
  - destruct Hlive as [?|Hle]; [lia|].
    rewrite (proj2 (Qltb_ge _ _) Hle). by rewrite andb_false_r.
  - reflexivity.
Qed.

(** X2.  A value stored with a positive [ex] carries the float sum
    [time.time() + ex] as its expiry.  It is gone once the clock is past
    that stored time stamp (provided the time stamp is not 0, which reads as
    "no expiry"): [get] answers [None] and removes the entry, so the store
    is the original one without the key.  Up to and including that time
    stamp [get] still answers the value. *)
Theorem redis_get_after_set_expired float_add now now' name value ex cache :
  0 < ex ->
  ~ (float_add now ex == 0)%Q ->
  ((float_add now ex < now')%Q ->
   MockRedis.get now' name
     (Fl.MockRedis.set float_add now name value ex cache)
   = (None, delete name cache))
  /\ ((now' <= float_add now ex)%Q ->
      MockRedis.get now' name
        (Fl.MockRedis.set float_add now name value ex cache)
      = (Some value, Fl.MockRedis.set float_add now name value ex cache)).
Proof.
  intros Hex Hnz. split.
  - intros Hlate. by apply fl_get_set_expired.
  - intros Hlive. apply fl_get_set_live. by right.
Qed.

Lemma redis_get_after_set_expired_witness :
  0 < 1
  /\ B64.float_add (3602879701896397 # 36028797018963968) 1
     = (2476979795053773 # 2251799813685248)
  /\ MockRedis.get (6 # 5) "k"
       (Fl.MockRedis.set B64.float_add
          (3602879701896397 # 36028797018963968) "k" "v" 1 ∅)
     = (None, delete "k" ∅)
  /\ MockRedis.get (2476979795053773 # 2251799813685248) "k"
       (Fl.MockRedis.set B64.float_add
          (3602879701896397 # 36028797018963968) "k" "v" 1 ∅)
     = (Some "v",
        Fl.MockRedis.set B64.float_add
          (3602879701896397 # 36028797018963968) "k" "v" 1 ∅).
Proof.
  split; [done|]. split; [by vm_compute|].
  split.
  - apply (redis_get_after_set_expired B64.float_add
             (3602879701896397 # 36028797018963968) (6 # 5) "k" "v" 1 ∅).
    + done.
    + by vm_compute.
    + by vm_compute.
  - apply (redis_get_after_set_expired B64.float_add
             (3602879701896397 # 36028797018963968)
             (2476979795053773 # 2251799813685248) "k" "v" 1 ∅).
    + done.
    + by vm_compute.
    + by vm_compute.
Defined.

Section CacheResponseFloat.
Context {Args V : Type}.
Variable float_add : Q -> Z -> Q.
Variable dumps_args : Args -> string.
Variable dumps : V -> string.
Variable loads : string -> V.
Variable ttl_seconds : Z.
Variable func_name : string.
Variable func : Args -> V.

Lemma fl_cache_response_miss t_get t_set args cache calls :
  truthy (MockRedis.get t_get (cache_key func_name (dumps_args args)) cache).1
  = false ->
  Fl.cache_response float_add dumps_args dumps loads ttl_seconds func_name
    func t_get t_set args (cache, calls)
  = (func args,
     (Fl.MockRedis.set float_add t_set
        (cache_key func_name (dumps_args args))
        (dumps (func args)) ttl_seconds
        (MockRedis.get t_get (cache_key func_name (dumps_args args)) cache).2,
      S calls)).
Proof.
  intros Hmiss. unfold Fl.cache_response.
  destruct (MockRedis.get t_get (cache_key func_name (dumps_args args)) cache)
    as [cached_value cache'].
  simpl in Hmiss. by rewrite Hmiss.
Qed.

End CacheResponseFloat.

(** X8.  With a positive [ttl_seconds], a call whose [get] reads the
    clock past the stored expiry of the entry (the float sum of the clock
    reading of the earlier [set] and [ttl_seconds]) misses again: it runs
    [func] a second time and stores the fresh result under the same key. *)
Theorem cache_response_expired_recomputes {Args V : Type}
    (float_add : Q -> Z -> Q)
    (dumps_args : Args -> string) (dumps : V -> string) (loads : string -> V)
    (ttl_seconds : Z) (func_name : string) (func : Args -> V)
    (t1 t2 t3 t4 : Q) (args : Args) cache calls :
  truthy (MockRedis.get t1 (cache_key func_name (dumps_args args)) cache).1
  = false ->
  0 < ttl_seconds ->
  ~ (float_add t2 ttl_seconds == 0)%Q ->
  (float_add t2 ttl_seconds < t3)%Q ->
  exists cache' cache'',
    Fl.cache_response float_add dumps_args dumps loads ttl_seconds func_name
      func t1 t2 args (cache, calls)
    = (func args, (cache', S calls))
    /\ Fl.cache_response float_add dumps_args dumps loads ttl_seconds
         func_name func t3 t4 args (cache', S calls)
       = (func args, (cache'', S (S calls)))
    /\ cache'' !! cache_key func_name (dumps_args args)
       = Some (dumps (func args), float_add t4 ttl_seconds).
Proof.
  intros Hmiss Httl Hnz Hlate. eexists _, _. split; [|split].
  - by apply fl_cache_response_miss.
  - apply fl_cache_response_miss. by rewrite fl_get_set_expired.
  - unfold Fl.MockRedis.set. rewrite lookup_insert_eq.
    by destruct (Z.ltb_spec 0 ttl_seconds); [|lia].
Qed.

Lemma cache_response_expired_recomputes_witness :
  exists cache' cache'',
    Fl.cache_response B64.float_add
      (fun b : bool => if b then "[true]" else "[false]")
      (fun n : bool => if n then "true" else "false")
      (fun s => String.eqb s "true") 60 "get_routes" negb
      1000 (2001 # 2) true (∅, 0%nat)
    = (false, (cache', 1%nat))
    /\ Fl.cache_response B64.float_add
         (fun b : bool => if b then "[true]" else "[false]")
         (fun n : bool => if n then "true" else "false")
         (fun s => String.eqb s "true") 60 "get_routes" negb
         1062 1063 true (cache', 1%nat)
       = (false, (cache'', 2%nat))
    /\ cache'' !! cache_key "get_routes" "[true]"
       = Some ("false", B64.float_add 1063 60).
Proof.
  apply (cache_response_expired_recomputes B64.float_add
           (fun b : bool => if b then "[true]" else "[false]")
           (fun n : bool => if n then "true" else "false")
           (fun s => String.eqb s "true") 60 "get_routes" negb
           1000 (2001 # 2) 1062 1063 true ∅ 0%nat).
  - done.
  - done.
  - by vm_compute.
  - by vm_compute.
Defined.

(** ** The correlation calls of analyze *)

Lemma fl_pearson_equal_length_raises (F : Type) (zero : F)
    (eq_zero : F -> bool) (fsum : list F -> F)
    (sub mul div : F -> F -> F)
    (square : F -> option F) (root : F -> F) (mean : list F -> F)
    (xs ys : list F) (e : exn) :
  length xs = length ys ->
  Fl.pearson_correlation F zero eq_zero fsum sub mul div square root mean xs ys
  = Raise e ->
  e = OverflowError.
Proof.
  intros Hlen [(-> & Hn & ->)|(-> & _)]%fl_pearson_raises; [|done].
  simpl in Hlen. lia.
Qed.

(** X28.  The lists handed to [pearson_correlation] after a loop that
    ran to its end always have the same length, in all three calls (all
    rows of [/api/routes], the normal hours, the peak hour); so none of the
    calls can raise the [StatisticsError] of an empty second list: the only
    exception left to them is the [OverflowError] of a square. *)
Theorem analyze_correlation_lists_agree
    (parse_float : string -> option Q) (parse_int : string -> option Z)
    rows st :
  Logs.analyze_loop parse_float parse_int rows Logs.initial = Logs.Return st ->
  (forall routes_db routes_resp,
     Logs.overall_lists st = Some (routes_db, routes_resp) ->
     length routes_db = length routes_resp)
  /\ (forall normal_resp normal_db peak_resp peak_db,
        Logs.split_peak (Logs.hourly_routes st)
        = (normal_resp, normal_db, peak_resp, peak_db) ->
        length normal_db = length normal_resp
        /\ length peak_db = length peak_resp)
  /\ (forall zero eq_zero fsum sub mul div square root mean xs ys e,
        Logs.overall_lists st = Some (xs, ys)
        \/ (exists peak_resp peak_db,
              Logs.split_peak (Logs.hourly_routes st)
              = (ys, xs, peak_resp, peak_db))
        \/ (exists normal_resp normal_db,
              Logs.split_peak (Logs.hourly_routes st)
              = (normal_resp, normal_db, ys, xs)) ->
        Fl.pearson_correlation Q zero eq_zero fsum sub mul div square root mean
          xs ys
        = Raise e ->
        e = OverflowError).
Proof.
  intros Hrun. apply analyze_loop_state_ok in Hrun as (Hm & Hh & _).
  assert (forall routes_db routes_resp,
            Logs.overall_lists st = Some (routes_db, routes_resp) ->
            length routes_db = length routes_resp) as Hall.
  { intros routes_db routes_resp. unfold Logs.overall_lists.
    destruct (Logs.endpoint_stats st !! Some "/api/routes") as [s|] eqn:E;
      [|done].
    intros [= <- <-]. apply Hm in E as (Hq & _ & _).
    by rewrite length_map. }
  assert (forall normal_resp normal_db peak_resp peak_db,
            Logs.split_peak (Logs.hourly_routes st)
            = (normal_resp, normal_db, peak_resp, peak_db) ->
            length normal_db = length normal_resp
            /\ length peak_db = length peak_resp) as Hsplit.
  { intros normal_resp normal_db peak_resp peak_db.
    rewrite split_peak_spec. intros [= <- <- <- <-].
    assert (forall (P : Z * Logs.Stats -> Prop) `{forall e, Decision (P e)},
              length (flat_map (fun e => map inject_Z (Logs.db_queries e.2))
                        (filter P (Logs.hourly_routes st)))
              = length (flat_map (fun e => Logs.response_times e.2)
                          (filter P (Logs.hourly_routes st)))) as Hlen.
    { intros P HP. apply flat_map_lengths_agree.
      apply Forall_forall. intros e He.
      apply list_elem_of_filter in He as [_ He].
      rewrite Forall_forall in Hh. apply Hh in He as (Hq & _ & _).
      by rewrite length_map. }
    split; apply Hlen. }
  split_and!; [done|done|].
  intros zero eq_zero fsum sub mul div square root mean xs ys e Hcall.
  apply fl_pearson_equal_length_raises.
  destruct Hcall as [Ho|[(a & b & Hs)|(a & b & Hs)]].
  - by apply Hall.
  - by apply Hsplit in Hs as [? _].
  - by apply Hsplit in Hs as [_ ?].
Qed.

Lemma analyze_correlation_lists_agree_witness :
  Logs.overall_lists sample_state
  = Some ([3; 9; 4]%Q, [120; 900; 200]%Q)
  /\ length [3; 9; 4]%Q = length [120; 900; 200]%Q.
Proof.
  split; [by vm_compute|].
  apply (analyze_correlation_lists_agree sample_float sample_int sample_rows
           sample_state).
  - by vm_compute.
  - by vm_compute.
Defined.
